(** * Pitch-location heat map: the filter-and-derive pipeline

    A shallow embedding of [kde_heatmap_2025.py].  The script is a straight
    line of statements over polars data frames: it resolves the selected
    pitcher in the roster, fetches that pitcher's games, filters the pitch
    rows, derives the vertical approach angle (VAA), aggregates five means
    and hands the plate locations to the plot.

    Modelling decisions, all taken from the source:
    - a data frame is the list of its rows, in row order;
    - a polars column is nullable: a cell is [option], [None] being null;
    - a Float64 cell is a binary64 number ([PrimFloat.float]); not-a-number
      is a float value, it is not null;
    - a filter keeps the rows whose predicate evaluates to [true]; a null
      predicate drops the row;
    - the arctangent and [round] come from outside IEEE 754 arithmetic and
      are parameters of the model;
    - the statements that touch the outside world, and the polars steps the
      script runs after the filter, are recorded in an event log, so that
      "this happens before that" and "this never runs" can be stated;
    - the widgets are read once into a record of inputs; the drawing calls
      (density plot, strike zone, text box, headshot) are one event, logged
      when they go through: they are library calls, and a run in which one
      of them raises is not followed;
    - line 22 sorts the roster names and raises on a null among two names or
      more: [load] (lines 17-44) has that raise, [script] is the run from
      line 36 on, once the select boxes are up;
    - the summary is kept both as the one-row polars frame ([summary]) and
      as the pandas row the script reads it from ([summary_iloc0]), where a
      null has become not-a-number. *)

From Stdlib Require Import ZArith NArith List String Ascii Bool Lia Sorted.
From Stdlib Require Import Permutation OrderedTypeEx.
From Stdlib Require Import Reals Lra Machin.
From Stdlib Require Import Uint63 PrimFloat FloatOps FloatAxioms SpecFloat.
Import ListNotations.

Local Open Scope string_scope.

(** ** Polars expressions and frames *)

Module Polars.

(** [pl.col(c) == v] on a string column. *)
Definition eq_str (c : option string) (v : string) : option bool :=
  option_map (fun s => String.eqb s v) c.

(** [pl.col(c) >= v] on a string column: byte-wise lexicographic. *)
Definition ge_str (c : option string) (v : string) : option bool :=
  option_map (fun s => String.leb v s) c.

(** [pl.col(c) <= v] on a string column. *)
Definition le_str (c : option string) (v : string) : option bool :=
  option_map (fun s => String.leb s v) c.

(** [a & b] on nullable booleans (Kleene conjunction). *)
Definition and_ (a b : option bool) : option bool :=
  match a, b with
  | Some false, _ | _, Some false => Some false
  | Some true, Some true => Some true
  | _, _ => None
  end.

(** A row survives [filter] when its predicate is [true], not null. *)
Definition keeps (m : option bool) : bool :=
  match m with
  | Some true => true
  | _ => false
  end.

Definition filter {A : Type} (p : A -> option bool) (df : list A) : list A :=
  List.filter (fun r => keeps (p r)) df.

Definition is_empty {A : Type} (df : list A) : bool :=
  match df with
  | [] => true
  | _ :: _ => false
  end.

(** Cell-wise lifting of a unary and of a binary float operation: a null
    operand gives a null result. *)
Definition map1 (f : float -> float) (a : option float) : option float :=
  option_map f a.

Definition map2 (f : float -> float -> float) (a b : option float)
  : option float :=
  match a, b with
  | Some x, Some y => Some (f x y)
  | _, _ => None
  end.

End Polars.

(** ** Rows *)

(** One row of the frame returned by [get_data_df], restricted to the columns
    the script reads. *)
Record PitchRecord : Type := mkPitch {
  pitcher_name : option string;
  pitcher_id : option Z;
  pitch_type : option string;
  game_date : option string;
  batter_hand : option string;
  px : option float;
  pz : option float;
  vy0 : option float;
  ay : option float;
  vz0 : option float;
  az : option float;
  start_speed : option float;
  ivb : option float;
  hb : option float;
  extension : option float
}.

(** One row of [players_df]. *)
Record Player : Type := mkPlayer {
  name : option string;
  player_id : option Z
}.

(** ** Dates: [str(start_date)] *)

(** A [datetime.date]; Python keeps [1 <= year <= 9999]. *)
Record date : Type := mkDate { year : N; month : N; day : N }.

Definition valid_date (d : date) : Prop :=
  (1 <= year d <= 9999 /\ 1 <= month d <= 12 /\ 1 <= day d <= 31)%N.

(** Calendar order. *)
Definition date_le (a b : date) : Prop :=
  (year a < year b \/
   (year a = year b /\ (month a < month b \/
                        (month a = month b /\ day a <= day b))))%N.

Definition digit (n : N) : ascii := ascii_of_N (48 + n mod 10).

(** [str(d)] is [d.isoformat()], that is ["%04d-%02d-%02d"]. *)
Definition str_date (d : date) : string :=
  String (digit (year d / 1000)) (String (digit (year d / 100))
  (String (digit (year d / 10)) (String (digit (year d))
  (String "-" (String (digit (month d / 10)) (String (digit (month d))
  (String "-" (String (digit (day d / 10)) (String (digit (day d))
  EmptyString))))))))).

(** ** Widget values *)

Record Inputs : Type := mkInputs {
  pitcher_name_input : string;
  pitch_type_input : string;
  batter_hand_input : string;
  start_date : date;
  end_date : date
}.

(** ** The filter chain (source lines 47-55) *)

Definition by_pitcher (inp : Inputs) (r : PitchRecord) : option bool :=
  Polars.eq_str (pitcher_name r) (pitcher_name_input inp).

Definition by_pitch_type (inp : Inputs) (r : PitchRecord) : option bool :=
  Polars.eq_str (pitch_type r) (pitch_type_input inp).

Definition by_date (inp : Inputs) (r : PitchRecord) : option bool :=
  Polars.and_ (Polars.ge_str (game_date r) (str_date (start_date inp)))
              (Polars.le_str (game_date r) (str_date (end_date inp))).

Definition by_hand (code : string) (r : PitchRecord) : option bool :=
  Polars.eq_str (batter_hand r) code.

Definition hand_filter (inp : Inputs) (df : list PitchRecord)
  : list PitchRecord :=
  if String.eqb (batter_hand_input inp) "Left" then
    Polars.filter (by_hand "L") df
  else if String.eqb (batter_hand_input inp) "Right" then
    Polars.filter (by_hand "R") df
  else df.

Definition date_filter (inp : Inputs) (df : list PitchRecord)
  : list PitchRecord :=
  Polars.filter (by_date inp) df.

Definition filter_chain (inp : Inputs) (df : list PitchRecord)
  : list PitchRecord :=
  let df := Polars.filter (by_pitcher inp) df in
  let df := Polars.filter (by_pitch_type inp) df in
  let df := date_filter inp df in
  hand_filter inp df.

(** ** The derived columns (source lines 64-76) *)

(** The two numeric routines polars takes from outside IEEE 754 arithmetic:
    the arctangent of the platform's math library and [round(decimals)].
    Neither is fixed bit for bit by the source, so both are parameters. *)
Record NumLib : Type := mkNumLib {
  arctan : float -> float;
  round : Z -> float -> float
}.

Module Vaa.
Local Open Scope float_scope.

Definition y0 : float := 50.
Definition yf : float := 17 / 12.

(** [np.pi], the binary64 number nearest to pi. *)
Definition np_pi : float := 0x1.921fb54442d18p+1.

(** [x ** 2] on a Float64 column is [x * x]. *)
Definition pow2 (x : float) : float := x * x.
End Vaa.

(** A row of the frame after the [with_columns] chain. *)
Record DerivedRow : Type := mkDerived {
  base :> PitchRecord;
  vy_f : option float;
  t : option float;
  vz_f : option float;
  vaa_rad : option float;
  vaa_deg : option float
}.

Section Derive.
Variable lib : NumLib.
Local Open Scope float_scope.

Definition col_vy_f (r : PitchRecord) : option float :=
  Polars.map1 PrimFloat.opp
    (Polars.map1 PrimFloat.sqrt
       (Polars.map2 PrimFloat.sub
          (Polars.map1 Vaa.pow2 (vy0 r))
          (Polars.map2 PrimFloat.mul
             (Polars.map2 PrimFloat.mul (Some 2) (ay r))
             (Some (Vaa.y0 - Vaa.yf))))).

Definition col_t (r : PitchRecord) (vy_f : option float) : option float :=
  Polars.map2 PrimFloat.div (Polars.map2 PrimFloat.sub vy_f (vy0 r)) (ay r).

Definition col_vz_f (r : PitchRecord) (t : option float) : option float :=
  Polars.map2 PrimFloat.add (vz0 r) (Polars.map2 PrimFloat.mul (az r) t).

Definition col_vaa_rad (vz_f vy_f : option float) : option float :=
  Polars.map1 (arctan lib)
    (Polars.map2 PrimFloat.div (Polars.map1 PrimFloat.opp vz_f) vy_f).

Definition col_vaa_deg (vaa_rad : option float) : option float :=
  Polars.map2 PrimFloat.mul vaa_rad (Some (180 / Vaa.np_pi)).

(** The five [with_columns] calls, each reading the column before it. *)
Definition derive_row (r : PitchRecord) : DerivedRow :=
  let vy_f := col_vy_f r in
  let t := col_t r vy_f in
  let vz_f := col_vz_f r t in
  let vaa_rad := col_vaa_rad vz_f vy_f in
  let vaa_deg := col_vaa_deg vaa_rad in
  mkDerived r vy_f t vz_f vaa_rad vaa_deg.

Definition with_columns_vaa (df : list PitchRecord) : list DerivedRow :=
  map derive_row df.

(** ** The summary (source lines 79-85) *)

(** The values of a column that are not null. *)
Fixpoint non_null (col : list (option float)) : list float :=
  match col with
  | [] => []
  | Some x :: rest => x :: non_null rest
  | None :: rest => non_null rest
  end.

Definition sum (xs : list float) : float := fold_left PrimFloat.add xs 0.

Definition of_nat (n : nat) : float :=
  PrimFloat.of_uint63 (Uint63.of_Z (Z.of_nat n)).

(** [mean()]: nulls are skipped, a column of nulls has a null mean; every
    float that is present, not-a-number included, enters the sum. *)
Definition mean (col : list (option float)) : option float :=
  match non_null col with
  | [] => None
  | xs => Some (sum xs / of_nat (List.length xs))
  end.

Record Summary : Type := mkSummary {
  Velo : option float;
  IVB : option float;
  HB : option float;
  Ext : option float;
  VAA : option float
}.

Definition mean_round1 (col : list (option float)) : option float :=
  Polars.map1 (round lib 1) (mean col).

Definition summary (df : list DerivedRow) : Summary :=
  {| Velo := mean_round1 (map (fun r : DerivedRow => start_speed r) df);
     IVB := mean_round1 (map (fun r : DerivedRow => ivb r) df);
     HB := mean_round1 (map (fun r : DerivedRow => hb r) df);
     Ext := mean_round1 (map (fun r : DerivedRow => extension r) df);
     VAA := mean_round1 (map vaa_deg df) |}.

End Derive.

(** ** The summary as the script keeps it (source line 85) *)

(** [.to_pandas()] on a float column: a number stays as it is, a null cell
    becomes not-a-number. *)
Definition to_pandas (c : option float) : float :=
  match c with
  | Some x => x
  | None => nan
  end.

(** [summary] as the script binds it: [.to_pandas().iloc[0]], the one row of
    the aggregate frame as a pandas series, value by label. *)
Definition summary_iloc0 (lib : NumLib) (df : list DerivedRow)
  : list (string * float) :=
  let s := summary lib df in
  [("Velo", to_pandas (Velo s)); ("IVB", to_pandas (IVB s));
   ("HB", to_pandas (HB s)); ("Ext", to_pandas (Ext s));
   ("VAA", to_pandas (VAA s))].

(** ** The rows handed to the plot (source line 102) *)

(** [df.select(["px", "pz"])]. *)
Definition select_px_pz (df : list DerivedRow)
  : list (option float * option float) :=
  map (fun r : DerivedRow => (px r, pz r)) df.

(** [drop_nulls()] on a two-column frame: a row goes when a cell is null. *)
Fixpoint drop_nulls (df : list (option float * option float))
  : list (float * float) :=
  match df with
  | [] => []
  | (Some x, Some z) :: rest => (x, z) :: drop_nulls rest
  | _ :: rest => drop_nulls rest
  end.

Definition pdf (df : list DerivedRow) : list (float * float) :=
  drop_nulls (select_px_pz df).

(** ** The script: statements, log and early stop *)

(** What the script does to the outside world, and the frame steps it runs
    once the filter chain is through; [StPyplot] stands for the drawing
    calls of lines 105-146. *)
Inductive event : Type :=
| GetPlayers
| GetPlayerGamesList (id : option Z)
| GetData (game_ids : list Z)
| GetDataDf
| StError (msg : string)
| StWarning (msg : string)
| StStop
| WithColumns
| SelectSummary
| SelectPdf
| StPyplot.

(** The two places where the script calls [st.stop()]. *)
Inductive halt : Type :=
| NotFoundError
| EmptyResult.

Inductive result (A : Type) : Type :=
| Ok (a : A)
| Halt (h : halt).

Arguments Ok {A} a.
Arguments Halt {A} h.

(** A run of a piece of script: the events in the order they happened, and
    either a value or the reason the script stopped. *)
Definition Script (A : Type) : Type := (list event * result A)%type.

Definition ret {A : Type} (a : A) : Script A := ([], Ok a).

Definition bind {A B : Type} (m : Script A) (k : A -> Script B) : Script B :=
  match m with
  | (log, Ok a) => let (log', r) := k a in ((log ++ log')%list, r)
  | (log, Halt h) => (log, Halt h)
  end.

Definition call {A : Type} (e : event) (a : A) : Script A := ([e], Ok a).

Definition emit (e : event) : Script unit := call e tt.

Definition st_stop {A : Type} (h : halt) : Script A := ([StStop], Halt h).

Declare Scope script_scope.
Delimit Scope script_scope with script.
Notation "x <- m ;; k" := (bind m (fun x => k))
  (at level 61, m at next level, right associativity) : script_scope.
Notation "m ;; k" := (bind m (fun _ => k))
  (at level 61, right associativity) : script_scope.

(** The scraper: the four calls of [MLB_Scrape] the script makes, with the
    season, sport and game-type arguments fixed as in the source. *)
Record MLB_Scrape (Raw : Type) : Type := mkScrape {
  get_players : list Player;
  get_player_games_list : option Z -> list Z;
  get_data : list Z -> Raw;
  get_data_df : Raw -> list PitchRecord
}.

Arguments get_players {Raw} _.
Arguments get_player_games_list {Raw} _ _.
Arguments get_data {Raw} _ _.
Arguments get_data_df {Raw} _ _.

Record Output : Type := mkOutput {
  out_df : list DerivedRow;
  out_summary : Summary;
  out_pdf : list (float * float)
}.

Section Script.
Variable lib : NumLib.
Context {Raw : Type}.
Variable scraper : MLB_Scrape Raw.
Local Open Scope script_scope.

(** Source lines 18 and 36-41. *)
Definition matching (inp : Inputs) (players_df : list Player) : list Player :=
  Polars.filter (fun p => Polars.eq_str (name p) (pitcher_name_input inp))
    players_df.

Definition resolve (inp : Inputs) : Script (option Z) :=
  players_df <- call GetPlayers (get_players scraper) ;;
  if Polars.is_empty (matching inp players_df) then
    emit (StError "Pitcher name not found in player list.") ;;
    st_stop NotFoundError
  else
    ret (hd None (map player_id (matching inp players_df))).

(** Source lines 42-44. *)
Definition fetch (id : option Z) : Script (list PitchRecord) :=
  game_ids <- call (GetPlayerGamesList id)
                (get_player_games_list scraper id) ;;
  raw_data <- call (GetData game_ids) (get_data scraper game_ids) ;;
  call GetDataDf (get_data_df scraper raw_data).

(** Source lines 47-146, from the fetched frame on.  [StPyplot] is logged
    for the drawing calls of lines 105-146 when they go through; they are
    library calls, and a run in which one of them raises ends there, which
    this definition does not follow. *)
Definition compute (inp : Inputs) (df : list PitchRecord) : Script Output :=
  let df := filter_chain inp df in
  if Polars.is_empty df then
    emit (StWarning
      "No matching data found for that pitcher, pitch type, and date range.") ;;
    st_stop EmptyResult
  else
    df <- call WithColumns (with_columns_vaa lib df) ;;
    summary <- call SelectSummary (summary lib df) ;;
    pdf <- call SelectPdf (pdf df) ;;
    emit StPyplot ;;
    ret (mkOutput df summary pdf).

(** Source lines 36-146: the run from the name match on, that is once
    line 22 has sorted the names and the select boxes are up. *)
Definition script (inp : Inputs) : Script Output :=
  id <- resolve inp ;;
  df <- fetch id ;;
  compute inp df.

End Script.

(** ** Line 22: sorting the roster names *)

(** An exception no statement of the script catches. *)
Inductive exn : Type :=
| TypeError.

(** How a run of the first part of the script ends: it goes on with a value,
    it stops at [st.stop()], or it raises. *)
Inductive ending (A : Type) : Type :=
| Goes_on (a : A)
| Stops (h : halt)
| Raises (e : exn).

Arguments Goes_on {A} a.
Arguments Stops {A} h.
Arguments Raises {A} e.

Definition is_null {A : Type} (c : option A) : bool :=
  match c with
  | None => true
  | Some _ => false
  end.

(** [sorted(player_names)] compares every name with another one as soon as
    there are two; comparing a null ([None]) raises TypeError.  A list of
    one name, or of none, is returned as it is. *)
Definition sorted_raises (names : list (option string)) : bool :=
  (2 <=? List.length names)%nat && existsb is_null names.

(** Source lines 17-44: the roster call, the sort of line 22, the name match
    and the three fetches. *)
Definition load {Raw : Type} (scraper : MLB_Scrape Raw) (inp : Inputs)
  : list event * ending (list PitchRecord) :=
  if sorted_raises (map name (get_players scraper)) then
    ([GetPlayers], Raises TypeError)
  else
    match bind (resolve scraper inp) (fetch scraper) with
    | (log, Ok df) => (log, Goes_on df)
    | (log, Halt h) => (log, Stops h)
    end.

(** ** Specification-side notions *)

(** The row predicate the four filters add up to. *)
Definition hand_ok (inp : Inputs) (r : PitchRecord) : bool :=
  if String.eqb (batter_hand_input inp) "Left" then
    Polars.keeps (by_hand "L" r)
  else if String.eqb (batter_hand_input inp) "Right" then
    Polars.keeps (by_hand "R" r)
  else true.

Definition selected (inp : Inputs) (r : PitchRecord) : bool :=
  Polars.keeps (by_pitcher inp r) && Polars.keeps (by_pitch_type inp r)
  && Polars.keeps (by_date inp r) && hand_ok inp r.

(** [subseq l1 l2]: [l1] is [l2] with some elements struck out. *)
Inductive subseq {A : Type} : list A -> list A -> Prop :=
| subseq_nil : subseq [] []
| subseq_keep (x : A) (l1 l2 : list A) :
    subseq l1 l2 -> subseq (x :: l1) (x :: l2)
| subseq_drop (x : A) (l1 l2 : list A) :
    subseq l1 l2 -> subseq l1 (x :: l2).

(** A row with its batter-handedness cell blanked: two rows that agree on
    everything but handedness have the same image. *)
Definition forget_hand (r : PitchRecord) : PitchRecord :=
  mkPitch (pitcher_name r) (pitcher_id r) (pitch_type r) (game_date r) None
    (px r) (pz r) (vy0 r) (ay r) (vz0 r) (az r)
    (start_speed r) (ivb r) (hb r) (extension r).




(** A column with its not-a-number cells taken out: what the mean would
    range over if it counted defined values only. *)
Definition skip_nan (col : list (option float)) : list (option float) :=
  List.filter
    (fun c => match c with
              | Some x => negb (PrimFloat.is_nan x)
              | None => true
              end) col.

(** The radicand of a row, from its [vy0] and [ay] cells. *)
Definition radicand (v a : float) : float :=
  PrimFloat.sub (Vaa.pow2 v)
    (PrimFloat.mul (PrimFloat.mul 2 a) (PrimFloat.sub Vaa.y0 Vaa.yf)).

Definition both_present (c : option float * option float) : bool :=
  match c with
  | (Some _, Some _) => true
  | _ => false
  end.

Definition is_fetch (e : event) : bool :=
  match e with
  | GetPlayerGamesList _ | GetData _ | GetDataDf => true
  | _ => false
  end.

Definition is_derivation (e : event) : bool :=
  match e with
  | WithColumns | SelectSummary | SelectPdf | StPyplot => true
  | _ => false
  end.

(** ** The four-step formula and its reference values *)

(** The formula as the specification words it, in binary64 arithmetic. *)
Module Formula.
Local Open Scope float_scope.

Definition vy_f (vy0 ay : float) : float :=
  - PrimFloat.sqrt (vy0 * vy0 - 2 * ay * (Vaa.y0 - Vaa.yf)).

Definition t (vy0 ay : float) : float := (vy_f vy0 ay - vy0) / ay.

Definition vz_f (vy0 ay vz0 az : float) : float := vz0 + az * t vy0 ay.

Definition vaa_rad (lib : NumLib) (vy0 ay vz0 az : float) : float :=
  arctan lib (- vz_f vy0 ay vz0 az / vy_f vy0 ay).

Definition vaa_deg (lib : NumLib) (vy0 ay vz0 az : float) : float :=
  vaa_rad lib vy0 ay vz0 az * (180 / Vaa.np_pi).

End Formula.

(** The same formula over the real numbers: the values one derives by
    hand. *)
Module Ref.
Local Open Scope R_scope.

Definition y0 : R := 50.
Definition yf : R := 17 / 12.

Definition vy_f (vy0 ay : R) : R :=
  - R_sqrt.sqrt (vy0 ^ 2 - 2 * ay * (y0 - yf)).

Definition t (vy0 ay : R) : R := (vy_f vy0 ay - vy0) / ay.

Definition vz_f (vy0 ay vz0 az : R) : R := vz0 + az * t vy0 ay.

Definition vaa_rad (vy0 ay vz0 az : R) : R :=
  atan (- vz_f vy0 ay vz0 az / vy_f vy0 ay).

Definition vaa_deg (vy0 ay vz0 az : R) : R :=
  vaa_rad vy0 ay vz0 az * 180 / PI.

End Ref.

(** The real number a binary64 number stands for (zero for the infinities
    and for not-a-number, which stand for none). *)
Definition SF2R (x : spec_float) : R :=
  match x with
  | S754_finite s m e => (IZR (cond_Zopp s (Z.pos m)) * powerRZ 2 e)%R
  | _ => 0%R
  end.

Definition F2R (x : float) : R := SF2R (Prim2SF x).

(** Within the tolerance 1e-6. *)
Definition close (x y : R) : Prop := (Rabs (x - y) <= 1 / 10 ^ 6)%R.



(** The arithmetic mean over the real numbers, and the distance binary64
    arithmetic may put between it and the computed mean: one relative
    rounding of [u = 2^-52] at most for each addition and for the division,
    and [eta = 2^-1074], the spacing of the smallest binary64 numbers, for a
    quotient that small. *)
Module RealMean.
Local Open Scope R_scope.







End RealMean.

(** The reference input of the formula, and a binary64 bracket of half-width
    about 1.2e-9 around the arctangent it needs. *)
Module Reference.
Local Open Scope float_scope.

Definition vy0 : float := -130.
Definition ay : float := 20.
Definition vz0 : float := -5.
Definition az : float := -16.

(** The argument handed to the arctangent. *)
Definition slope : float :=
  - Formula.vz_f vy0 ay vz0 az / Formula.vy_f vy0 ay.

Definition atan_lo : float := -0x1.74ceafep-4.
Definition atan_hi : float := -0x1.74ceaf4p-4.

End Reference.

(** ** Sample frames

    Small concrete inputs on which the statements below are exercised. *)

Module Sample.
Local Open Scope float_scope.

(** A stand-in for the math library: the arctangent as its Taylor polynomial
    of degree nine, and rounding to [d] decimals, ties to even, through the
    2^52 shift. *)
Definition arctan9 (x : float) : float :=
  let x2 := x * x in
  x * (1 - x2 * (1 / 3 - x2 * (1 / 5 - x2 * (1 / 7 - x2 * (1 / 9))))).

Fixpoint pow10 (d : nat) : float :=
  match d with
  | O => 1
  | S d' => 10 * pow10 d'
  end.

Definition round_even (d : Z) (x : float) : float :=
  let m := pow10 (Z.to_nat d) in
  let y := PrimFloat.abs (x * m) in
  let r := (y + 0x1p+52) - 0x1p+52 in
  (if PrimFloat.ltb x 0 then - r else r) / m.

Definition lib : NumLib := mkNumLib arctan9 round_even.

Definition pitch (dt hand : string) (x z : option float) (speed : float)
  : PitchRecord :=
  mkPitch (Some "Eury Perez") (Some 691587%Z) (Some "FF") (Some dt)
    (Some hand) x z (Some (-130)) (Some 20) (Some (-5)) (Some (-16))
    (Some speed) (Some 17.5) (Some (-8.25)) (Some 6.75).

Definition df_LR : list PitchRecord :=
  [pitch "2025-04-01" "L" (Some 0.5) (Some 2.5) 97.5;
   pitch "2025-04-08" "R" None (Some 3) 98.5].

Definition df_RL : list PitchRecord :=
  [pitch "2025-04-01" "R" (Some 0.5) (Some 2.5) 97.5;
   pitch "2025-04-08" "L" None (Some 3) 98.5].

Definition df_edges : list PitchRecord :=
  [pitch "2025-01-01" "L" (Some 0.5) (Some 2.5) 97.5;
   pitch "2025-12-31" "R" (Some 0.25) (Some 3) 98.5;
   pitch "2026-01-01" "R" (Some 0.25) (Some 3) 98.5].

(** A row whose radicand [vy0^2 - 2 ay (y0 - yf)] is negative. *)
Definition slow : PitchRecord :=
  mkPitch (Some "Eury Perez") (Some 691587%Z) (Some "FF") (Some "2025-04-15")
    (Some "R") (Some 0.25) (Some 2) (Some (-10)) (Some 20) (Some (-5))
    (Some (-16)) (Some 96.5) (Some 15.5) (Some (-7.5)) (Some 6.5).

Definition df_nan : list PitchRecord :=
  [pitch "2025-04-01" "L" (Some 0.5) (Some 2.5) 97.5; slow].

(** The VAA column of [df_nan] after derivation. *)
Definition vaa_nan_col : list (option float) :=
  map vaa_deg (with_columns_vaa lib df_nan).

Definition season : Inputs :=
  mkInputs "Eury Perez" "FF" "Both" (mkDate 2025 1 1) (mkDate 2025 12 31).

Definition curveballs : Inputs :=
  mkInputs "Eury Perez" "CU" "Both" (mkDate 2025 1 1) (mkDate 2025 12 31).

Definition stranger : Inputs :=
  mkInputs "Nobody Known" "FF" "Both" (mkDate 2025 1 1) (mkDate 2025 12 31).

Definition scraper : MLB_Scrape (list Z) :=
  mkScrape (list Z)
    [mkPlayer (Some "Eury Perez") (Some 691587%Z);
     mkPlayer (Some "Sandy Alcantara") (Some 645261%Z)]
    (fun _ => [1%Z; 2%Z])
    (fun ids => ids)
    (fun _ => df_LR).

End Sample.

(** ** The roster select box (source lines 21-29) *)

(** The literal of line 28, byte for byte. *)
Definition default_name : string :=
  "Eury P"
  ++ String (ascii_of_N 195) (String (ascii_of_N 131)
       (String (ascii_of_N 194) (String (ascii_of_N 169) "rez"))).

Fixpoint insert_name (s : string) (l : list string) : list string :=
  match l with
  | [] => [s]
  | x :: rest => if String.leb s x then s :: l else x :: insert_name s rest
  end.

(** [sorted(names)] on strings: ascending in byte order, which for UTF-8 is
    the order of the code points Python compares.  Equal strings are
    identical, so the sorted list does not depend on the sorting method. *)
Definition sorted (l : list string) : list string :=
  fold_right insert_name [] l.

(** The cells of a column when none is null. *)
Fixpoint present (col : list (option string)) : option (list string) :=
  match col with
  | [] => Some []
  | Some s :: rest => option_map (cons s) (present rest)
  | None :: rest => None
  end.

(** Lines 21-22, for a roster without null names; [None] otherwise (a null
    among the names leaves [sorted] without an order to go by). *)
Definition player_names (players_df : list Player) : option (list string) :=
  option_map sorted (present (map name players_df)).

(** [l.index(x)]: the first position of [x]; [None] when [x] is absent
    (where Python raises). *)
Fixpoint index (x : string) (l : list string) : option nat :=
  match l with
  | [] => None
  | y :: rest =>
      if String.eqb y x then Some O else option_map S (index x rest)
  end.

(** [x in l]. *)
Definition contains (x : string) (l : list string) : bool :=
  existsb (fun y => String.eqb y x) l.

(** The [index=] argument of the pitcher select box. *)
Definition default_index (names : list string) : option nat :=
  if contains default_name names then index default_name names else Some O.

(** The name the select box shows first: the option at that index. *)
Definition default_pitcher (names : list string) : option string :=
  match default_index names with
  | Some i => nth_error names i
  | None => None
  end.

(** ** Further specification-side notions *)

(** The same widget values with another handedness choice. *)
Definition with_hand (h : string) (inp : Inputs) : Inputs :=
  mkInputs (pitcher_name_input inp) (pitch_type_input inp) h
    (start_date inp) (end_date inp).

(** The same widget values with another date interval. *)
Definition with_dates (s e : date) (inp : Inputs) : Inputs :=
  mkInputs (pitcher_name_input inp) (pitch_type_input inp)
    (batter_hand_input inp) s e.

(** The four filters as row predicates, in source order, and a run of
    filters in any order. *)
Definition stages (inp : Inputs) : list (PitchRecord -> bool) :=
  [fun r => Polars.keeps (by_pitcher inp r);
   fun r => Polars.keeps (by_pitch_type inp r);
   fun r => Polars.keeps (by_date inp r);
   hand_ok inp].

Definition run_stages (ps : list (PitchRecord -> bool))
    (df : list PitchRecord) : list PitchRecord :=
  fold_left (fun d p => List.filter p d) ps df.

(** Not a finite number: not-a-number or an infinity. *)
Definition not_finite (x : float) : Prop :=
  x = nan \/ x = infinity \/ x = neg_infinity.

(** The same on the specification of binary64. *)
Definition SF_not_finite (x : spec_float) : Prop :=
  match x with
  | S754_nan | S754_infinity _ => True
  | _ => False
  end.

(** ** More sample inputs *)

Module Cases.
Local Open Scope float_scope.

(** A row with no acceleration cell. *)
Definition gap : PitchRecord :=
  mkPitch (Some "Eury Perez") (Some 691587%Z) (Some "FF") (Some "2025-04-20")
    (Some "L") (Some 0.25) (Some 2) (Some (-130)) None (Some (-5))
    (Some (-16)) (Some 96.5) (Some 15.5) (Some (-7.5)) (Some 6.5).

(** A row with a zero acceleration. *)
Definition still : PitchRecord :=
  mkPitch (Some "Eury Perez") (Some 691587%Z) (Some "FF") (Some "2025-04-21")
    (Some "L") (Some 0.25) (Some 2) (Some (-130)) (Some 0) (Some (-5))
    (Some (-16)) (Some 96.5) (Some 15.5) (Some (-7.5)) (Some 6.5).

(** April only, and an interval that ends before it starts. *)
Definition april : Inputs :=
  mkInputs "Eury Perez" "FF" "Both" (mkDate 2025 4 1) (mkDate 2025 4 30).

Definition reversed : Inputs :=
  mkInputs "Eury Perez" "FF" "Both" (mkDate 2025 12 31) (mkDate 2025 1 1).

(** The source order of the filters, reversed. *)
Definition backwards (inp : Inputs) : list (PitchRecord -> bool) :=
  [hand_ok inp;
   fun r => Polars.keeps (by_date inp r);
   fun r => Polars.keeps (by_pitch_type inp r);
   fun r => Polars.keeps (by_pitcher inp r)].

Definition sandy : Inputs :=
  mkInputs "Sandy Alcantara" "FF" "Both" (mkDate 2025 1 1) (mkDate 2025 12 31).

(** A row whose horizontal location is not-a-number. *)
Definition wild : PitchRecord :=
  mkPitch (Some "Eury Perez") (Some 691587%Z) (Some "FF") (Some "2025-04-22")
    (Some "L") (Some nan) (Some 2) (Some (-130)) (Some 20) (Some (-5))
    (Some (-16)) (Some 96.5) (Some 15.5) (Some (-7.5)) (Some 6.5).

(** A scraper whose roster has a row without a name. *)
Definition torn : MLB_Scrape (list Z) :=
  mkScrape (list Z)
    [mkPlayer None (Some 1%Z); mkPlayer (Some "Eury Perez") (Some 691587%Z)]
    (fun _ => [1%Z; 2%Z])
    (fun ids => ids)
    (fun _ => Sample.df_LR).

End Cases.

(** * Properties *)

(** ** Lists and filters *)

Lemma filter_twice {A : Type} (p q : A -> bool) (l : list A) :
  List.filter q (List.filter p l) = List.filter (fun x => p x && q x) l.
Proof.
  induction l as [|x l IH]; simpl; [reflexivity|].
  destruct (p x); simpl; [destruct (q x)|]; now rewrite IH.
Qed.

Lemma filter_same {A : Type} (p : A -> bool) (l : list A) :
  List.filter p (List.filter p l) = List.filter p l.
Proof.
  rewrite filter_twice. apply filter_ext. intros x. now destruct (p x).
Qed.

Lemma hand_filter_spec (inp : Inputs) (df : list PitchRecord) :
  hand_filter inp df = List.filter (hand_ok inp) df.
Proof.
  unfold hand_filter, hand_ok, Polars.filter.
  destruct (batter_hand_input inp =? "Left"); [reflexivity|].
  destruct (batter_hand_input inp =? "Right"); [reflexivity|].
  induction df as [|x l IH]; simpl; congruence.
Qed.

Lemma filter_chain_spec (inp : Inputs) (df : list PitchRecord) :
  filter_chain inp df = List.filter (selected inp) df.
Proof.
  unfold filter_chain, date_filter, Polars.filter.
  rewrite hand_filter_spec, !filter_twice.
  apply filter_ext. intros r. unfold selected. now rewrite !andb_assoc.
Qed.

Lemma subseq_filter {A : Type} (p : A -> bool) (l : list A) :
  subseq (List.filter p l) l.
Proof.
  induction l as [|x l IH]; simpl; [constructor|].
  destruct (p x); now constructor.
Qed.

Lemma subseq_indices {A : Type} (l1 l2 : list A) :
  subseq l1 l2 ->
  exists idx : list nat,
    StronglySorted lt idx /\ map (nth_error l2) idx = map Some l1.
Proof.
  induction 1 as [|x l1 l2 _ [idx [Hs Hm]]|x l1 l2 _ [idx [Hs Hm]]].
  - exists []. split; [constructor | reflexivity].
  - exists (0%nat :: map S idx). split.
    + constructor.
      * clear Hm. induction Hs as [|a l Hl IH Ha]; simpl; constructor.
        -- exact IH.
        -- rewrite Forall_map. revert Ha. apply Forall_impl. intros; lia.
      * rewrite Forall_map. apply Forall_forall. intros; lia.
    + simpl. f_equal. rewrite map_map. exact Hm.
  - exists (map S idx). split.
    + clear Hm. induction Hs as [|a l Hl IH Ha]; simpl; constructor.
      * exact IH.
      * rewrite Forall_map. revert Ha. apply Forall_impl. intros; lia.
    + rewrite map_map. exact Hm.
Qed.

Lemma subseq_In {A : Type} (l1 l2 : list A) :
  subseq l1 l2 -> forall x, In x l1 -> In x l2.
Proof.
  induction 1; simpl; intuition.
Qed.

Lemma subseq_length {A : Type} (l1 l2 : list A) :
  subseq l1 l2 -> (List.length l1 <= List.length l2)%nat.
Proof.
  induction 1; simpl; lia.
Qed.

(** ** The filter chain *)

(** C8: the filter stage is idempotent: run on its own output, the chain of
    the four filters (pitcher name, pitch type, date interval, handedness)
    returns that output unchanged. *)
Theorem filter_chain_idempotent (inp : Inputs) (df : list PitchRecord) :
  filter_chain inp (filter_chain inp df) = filter_chain inp df.
Proof.
  rewrite !filter_chain_spec. apply filter_same.
Qed.

(** C10: the filtered frame is a subsequence of the input frame: it is the
    input with rows struck out, so every surviving row is an input row as it
    was, and the survivors sit at strictly increasing input positions (none
    twice, order kept). *)
Theorem filter_chain_subsequence (inp : Inputs) (df : list PitchRecord) :
  subseq (filter_chain inp df) df
  /\ (forall r, In r (filter_chain inp df) -> In r df)
  /\ (List.length (filter_chain inp df) <= List.length df)%nat
  /\ exists idx : list nat,
       StronglySorted lt idx
       /\ map (nth_error df) idx = map Some (filter_chain inp df).
Proof.
  assert (H : subseq (filter_chain inp df) df).
  { rewrite filter_chain_spec. apply subseq_filter. }
  repeat split.
  - exact H.
  - apply subseq_In, H.
  - apply subseq_length, H.
  - apply subseq_indices, H.
Qed.

(** ** The rows handed to the plot *)

Lemma drop_nulls_spec (cells : list (option float * option float)) :
  map (fun c => (Some (fst c), Some (snd c))) (drop_nulls cells)
  = List.filter both_present cells.
Proof.
  induction cells as [|[[x|] [z|]] rest IH]; simpl; congruence.
Qed.

Lemma drop_nulls_In (cells : list (option float * option float)) x z :
  In (x, z) (drop_nulls cells) <-> In (Some x, Some z) cells.
Proof.
  induction cells as [|[[x'|] [z'|]] rest IH]; simpl;
    rewrite ?IH; intuition congruence.
Qed.

(** C9, as the code has it: the frame handed to the plot has the two columns
    [px] and [pz] only; a row is in it exactly when neither of its two cells
    is null, and the rows that stay keep their values and their order.  A
    not-a-number cell is a float value, it is not null: a row whose [px] or
    [pz] is not-a-number, with the other cell present, stays. *)
Theorem pdf_drops_null_locations (df : list DerivedRow) :
  map (fun c => (Some (fst c), Some (snd c))) (pdf df)
  = List.filter both_present (select_px_pz df)
  /\ (forall x z, In (x, z) (pdf df) <->
                  exists r : DerivedRow,
                    In r df /\ px r = Some x /\ pz r = Some z)
  /\ List.length (pdf df)
     = List.length (List.filter both_present (select_px_pz df))
  /\ (forall r : DerivedRow,
        In r df ->
        (px r = None \/ pz r = None ->
         forall x z, px r = Some x -> pz r = Some z -> False)
        /\ (forall z, px r = Some nan -> pz r = Some z -> In (nan, z) (pdf df))
        /\ (forall x, px r = Some x -> pz r = Some nan ->
                      In (x, nan) (pdf df))).
Proof.
  assert (M : forall x z, In (x, z) (pdf df) <->
                          exists r : DerivedRow,
                            In r df /\ px r = Some x /\ pz r = Some z).
  { intros x z. unfold pdf. rewrite drop_nulls_In.
    unfold select_px_pz. rewrite in_map_iff. split.
    - intros [r [E I]]. exists r. inversion E. auto.
    - intros [r [I [Hx Hz]]]. exists r. now rewrite Hx, Hz. }
  split; [apply drop_nulls_spec|]. split; [exact M|]. split.
  - rewrite <- drop_nulls_spec. now rewrite length_map.
  - intros r I. split; [|split].
    + intros [N|N] x z Hx Hz; congruence.
    + intros z Hx Hz. apply M. now exists r.
    + intros x Hx Hz. apply M. now exists r.
Qed.

(** A row with an undefined location is not removed: the one row of this
    frame has not-a-number as its [px], and it is handed to the plot. *)
Lemma nan_location_kept_counterexample :
  option_map PrimFloat.is_nan (px Cases.wild) = Some true
  /\ pdf (with_columns_vaa Sample.lib [Cases.wild]) = [(nan, 2%float)]
  /\ List.length (pdf (with_columns_vaa Sample.lib [Cases.wild])) = 1%nat.
Proof. repeat split. Qed.

(** ** Early stops *)

Lemma eq_str_keeps (c : option string) (v : string) :
  Polars.keeps (Polars.eq_str c v) = true <-> c = Some v.
Proof.
  destruct c as [s|]; simpl; [|split; discriminate].
  destruct (String.eqb_spec s v) as [->|N]; split; try reflexivity;
    try discriminate.
  intros E. inversion E. contradiction.
Qed.

Lemma matching_none (inp : Inputs) (players_df : list Player) :
  (forall p, In p players_df -> name p <> Some (pitcher_name_input inp)) ->
  matching inp players_df = [].
Proof.
  intros H. unfold matching, Polars.filter.
  induction players_df as [|p l IH]; simpl; [reflexivity|].
  destruct (Polars.keeps _) eqn:K.
  - apply eq_str_keeps in K. exfalso. apply (H p); simpl; auto.
  - apply IH. intros q Hq. apply H. simpl; auto.
Qed.

(** A roster without a null name is sorted without an exception. *)
Lemma no_null_sorts (players_df : list Player) :
  (forall p, In p players_df -> name p <> None) ->
  sorted_raises (map name players_df) = false.
Proof.
  intros H. unfold sorted_raises.
  assert (E : existsb is_null (map name players_df) = false).
  { induction players_df as [|p l IH]; [reflexivity|]. simpl.
    destruct (name p) eqn:N.
    - apply IH. intros q I. apply H. now right.
    - exfalso. apply (H p); simpl; auto. }
  rewrite E. apply andb_false_r.
Qed.

(** C4: when no roster row carries exactly the selected name, nothing is
    fetched: the log of lines 17-44 has no game list, no raw data and no
    pitch frame, whatever the roster.  On a roster without null names (where
    line 22 sorts the names and the select box is shown) the script reports
    the error and stops with [NotFoundError]; its whole log is the roster
    call, the error message and the stop. *)
Theorem unknown_pitcher_halts_before_fetch
    (lib : NumLib) (Raw : Type) (scraper : MLB_Scrape Raw) (inp : Inputs) :
  (forall p, In p (get_players scraper) ->
             name p <> Some (pitcher_name_input inp)) ->
  existsb is_fetch (fst (load scraper inp)) = false
  /\ ((forall p, In p (get_players scraper) -> name p <> None) ->
      load scraper inp
      = ([GetPlayers; StError "Pitcher name not found in player list.";
          StStop], Stops NotFoundError)
      /\ script lib scraper inp
         = ([GetPlayers; StError "Pitcher name not found in player list.";
             StStop], Halt NotFoundError)
      /\ existsb is_fetch (fst (script lib scraper inp)) = false).
Proof.
  intros H.
  assert (R : resolve scraper inp
              = ([GetPlayers;
                  StError "Pitcher name not found in player list."; StStop],
                 Halt NotFoundError)).
  { unfold resolve. simpl. rewrite (matching_none _ _ H). reflexivity. }
  split.
  - unfold load. destruct (sorted_raises _); [reflexivity|].
    rewrite R. reflexivity.
  - intros NN. split; [|split].
    + unfold load. rewrite (no_null_sorts _ NN), R. reflexivity.
    + unfold script. rewrite R. reflexivity.
    + unfold script. rewrite R. reflexivity.
Qed.

(** C3: when no row survives the filter chain, [compute] warns and stops
    with [EmptyResult]; its log holds the warning and the stop only.  The
    same holds for the whole script once the pitcher is resolved: the log
    has no derived-column step, no summary, no plot. *)
Theorem empty_filter_stops_before_derivation
    (lib : NumLib) (inp : Inputs) (df : list PitchRecord) :
  filter_chain inp df = [] ->
  compute lib inp df
  = ([StWarning
        "No matching data found for that pitcher, pitch type, and date range.";
      StStop], Halt EmptyResult)
  /\ forall (Raw : Type) (scraper : MLB_Scrape Raw),
       Polars.is_empty (matching inp (get_players scraper)) = false ->
       get_data_df scraper
         (get_data scraper
            (get_player_games_list scraper
               (hd None (map player_id (matching inp (get_players scraper))))))
       = df ->
       snd (script lib scraper inp) = Halt EmptyResult
       /\ existsb is_derivation (fst (script lib scraper inp)) = false.
Proof.
  intros H. split.
  - unfold compute. rewrite H. reflexivity.
  - intros Raw scraper M F. unfold script, resolve, fetch. simpl.
    rewrite M. simpl. rewrite F. unfold compute. rewrite H. simpl. auto.
Qed.

Lemma unknown_pitcher_halts_before_fetch_witness :
  load Sample.scraper Sample.stranger
  = ([GetPlayers; StError "Pitcher name not found in player list."; StStop],
     Stops NotFoundError)
  /\ script Sample.lib Sample.scraper Sample.stranger
     = ([GetPlayers; StError "Pitcher name not found in player list.";
         StStop], Halt NotFoundError)
  /\ existsb is_fetch
       (fst (script Sample.lib Sample.scraper Sample.stranger)) = false.
Proof.
  destruct (unknown_pitcher_halts_before_fetch
              Sample.lib (list Z) Sample.scraper Sample.stranger) as [_ H].
  - intros p [<-|[<-|[]]]; simpl; discriminate.
  - apply H. intros p [<-|[<-|[]]]; simpl; discriminate.
Defined.

(** A roster with a null name among two: line 22 raises, before the name is
    matched and before anything is fetched. *)
Lemma null_name_roster_raises :
  load Cases.torn Sample.stranger = ([GetPlayers], Raises TypeError).
Proof. reflexivity. Qed.

Lemma empty_filter_stops_before_derivation_witness :
  compute Sample.lib Sample.curveballs Sample.df_LR
  = ([StWarning
        "No matching data found for that pitcher, pitch type, and date range.";
      StStop], Halt EmptyResult)
  /\ snd (script Sample.lib Sample.scraper Sample.curveballs)
     = Halt EmptyResult
  /\ existsb is_derivation
       (fst (script Sample.lib Sample.scraper Sample.curveballs)) = false.
Proof.
  destruct (empty_filter_stops_before_derivation
              Sample.lib Sample.curveballs Sample.df_LR) as [H1 H2].
  - reflexivity.
  - split; [exact H1|].
    apply (H2 (list Z) Sample.scraper); reflexivity.
Defined.

(** ** Handedness *)

Lemma map_filter_comm {A B : Type} (f : A -> B) (p : B -> bool) (l : list A) :
  map f (List.filter (fun a => p (f a)) l) = List.filter p (map f l).
Proof.
  induction l as [|a l IH]; simpl; [reflexivity|].
  destruct (p (f a)); simpl; now rewrite IH.
Qed.

Lemma hand_ok_both (inp : Inputs) (r : PitchRecord) :
  batter_hand_input inp <> "Left" -> batter_hand_input inp <> "Right" ->
  hand_ok inp r = true.
Proof.
  intros L R. unfold hand_ok.
  apply String.eqb_neq in L. apply String.eqb_neq in R.
  now rewrite L, R.
Qed.

Lemma selected_forget_hand (inp : Inputs) (r : PitchRecord) :
  batter_hand_input inp <> "Left" -> batter_hand_input inp <> "Right" ->
  selected inp r = selected inp (forget_hand r).
Proof.
  intros L R. unfold selected. now rewrite !hand_ok_both.
Qed.

Lemma filter_chain_forget_hand (inp : Inputs) (df : list PitchRecord) :
  batter_hand_input inp <> "Left" -> batter_hand_input inp <> "Right" ->
  map forget_hand (filter_chain inp df)
  = List.filter (selected inp) (map forget_hand df).
Proof.
  intros L R. rewrite filter_chain_spec, <- map_filter_comm. f_equal.
  apply filter_ext. intros r. now apply selected_forget_hand.
Qed.

Lemma derive_row_forget_hand (lib : NumLib) (r : PitchRecord) :
  derive_row lib (forget_hand r)
  = mkDerived (forget_hand r) (vy_f (derive_row lib r)) (t (derive_row lib r))
      (vz_f (derive_row lib r)) (vaa_rad (derive_row lib r))
      (vaa_deg (derive_row lib r)).
Proof. reflexivity. Qed.

Lemma column_forget_hand {X : Type} (lib : NumLib) (f : DerivedRow -> X)
    (df : list PitchRecord) :
  (forall r, f (derive_row lib r) = f (derive_row lib (forget_hand r))) ->
  map f (with_columns_vaa lib df)
  = map f (with_columns_vaa lib (map forget_hand df)).
Proof.
  intros H. unfold with_columns_vaa. rewrite !map_map.
  apply map_ext. exact H.
Qed.

Lemma summary_forget_hand (lib : NumLib) (df : list PitchRecord) :
  summary lib (with_columns_vaa lib df)
  = summary lib (with_columns_vaa lib (map forget_hand df)).
Proof.
  unfold summary.
  rewrite (column_forget_hand lib (fun r : DerivedRow => start_speed r) df),
    (column_forget_hand lib (fun r : DerivedRow => ivb r) df),
    (column_forget_hand lib (fun r : DerivedRow => hb r) df),
    (column_forget_hand lib (fun r : DerivedRow => extension r) df),
    (column_forget_hand lib vaa_deg df); reflexivity.
Qed.

Lemma pdf_forget_hand (lib : NumLib) (df : list PitchRecord) :
  pdf (with_columns_vaa lib df)
  = pdf (with_columns_vaa lib (map forget_hand df)).
Proof.
  unfold pdf, select_px_pz. f_equal.
  now apply (column_forget_hand lib (fun r : DerivedRow => (px r, pz r))).
Qed.

(** C6: with the handedness criterion at ["Both"], two frames that agree on
    every cell but batter handedness are filtered alike: the same positions
    survive, the surviving rows agree on every cell but handedness, and the
    summary and the plotted rows are equal.  The handedness filter runs for
    ["Left"] and for ["Right"] only; for any other criterion the frame
    passes through untouched. *)
Theorem both_hands_ignores_handedness
    (lib : NumLib) (inp : Inputs) (df1 df2 : list PitchRecord) :
  batter_hand_input inp = "Both" ->
  map forget_hand df1 = map forget_hand df2 ->
  map (selected inp) df1 = map (selected inp) df2
  /\ map forget_hand (filter_chain inp df1)
     = map forget_hand (filter_chain inp df2)
  /\ summary lib (with_columns_vaa lib (filter_chain inp df1))
     = summary lib (with_columns_vaa lib (filter_chain inp df2))
  /\ pdf (with_columns_vaa lib (filter_chain inp df1))
     = pdf (with_columns_vaa lib (filter_chain inp df2))
  /\ (forall (c : Inputs) (df : list PitchRecord),
        hand_filter c df
        = if String.eqb (batter_hand_input c) "Left"
          then Polars.filter (by_hand "L") df
          else if String.eqb (batter_hand_input c) "Right"
               then Polars.filter (by_hand "R") df
               else df)
  /\ (forall (c : Inputs) (df : list PitchRecord),
        batter_hand_input c <> "Left" -> batter_hand_input c <> "Right" ->
        hand_filter c df = df).
Proof.
  intros B E.
  assert (L : batter_hand_input inp <> "Left") by (rewrite B; discriminate).
  assert (R : batter_hand_input inp <> "Right") by (rewrite B; discriminate).
  assert (F : map forget_hand (filter_chain inp df1)
              = map forget_hand (filter_chain inp df2)).
  { rewrite !filter_chain_forget_hand by assumption. now rewrite E. }
  repeat split.
  - rewrite (map_ext _ _ (fun r => selected_forget_hand inp r L R)).
    rewrite <- (map_map forget_hand (selected inp)), E, map_map.
    symmetry. apply map_ext. intros r. now apply selected_forget_hand.
  - exact F.
  - rewrite summary_forget_hand, F, <- summary_forget_hand. reflexivity.
  - rewrite (pdf_forget_hand lib (filter_chain inp df1)), F,
      <- pdf_forget_hand. reflexivity.
  - intros c df Lc Rc. unfold hand_filter.
    apply String.eqb_neq in Lc. apply String.eqb_neq in Rc.
    now rewrite Lc, Rc.
Qed.

Lemma both_hands_ignores_handedness_witness :
  map (selected Sample.season) Sample.df_LR
  = map (selected Sample.season) Sample.df_RL
  /\ map forget_hand (filter_chain Sample.season Sample.df_LR)
     = map forget_hand (filter_chain Sample.season Sample.df_RL).
Proof.
  destruct (both_hands_ignores_handedness
              Sample.lib Sample.season Sample.df_LR Sample.df_RL)
    as [H1 [H2 _]].
  - reflexivity.
  - reflexivity.
  - split; assumption.
Defined.

(** ** Dates *)

Lemma digit_compare (a b : N) :
  Ascii.compare (digit a) (digit b) = N.compare (a mod 10) (b mod 10).
Proof.
  unfold Ascii.compare, digit.
  assert (Ha : (a mod 10 < 10)%N) by (apply N.mod_upper_bound; discriminate).
  assert (Hb : (b mod 10 < 10)%N) by (apply N.mod_upper_bound; discriminate).
  rewrite !N_ascii_embedding by lia.
  destruct (N.compare_spec (a mod 10) (b mod 10)) as [E|E|E].
  - rewrite E. apply N.compare_refl.
  - apply N.compare_lt_iff. lia.
  - apply N.compare_gt_iff. lia.
Qed.

Lemma digits2 (m : N) :
  (m <= 99 -> m = 10 * ((m / 10) mod 10) + m mod 10)%N.
Proof.
  intros H.
  assert (m / 10 < 10)%N by (apply N.Div0.div_lt_upper_bound; lia).
  rewrite (N.mod_small (m / 10)) by assumption.
  apply N.div_mod. discriminate.
Qed.

Lemma digits4 (y : N) :
  (y <= 9999 ->
   y = 1000 * ((y / 1000) mod 10) + 100 * ((y / 100) mod 10)
       + 10 * ((y / 10) mod 10) + y mod 10)%N.
Proof.
  intros H.
  assert (y / 1000 < 10)%N by (apply N.Div0.div_lt_upper_bound; lia).
  rewrite (N.mod_small (y / 1000)) by assumption.
  pose proof (N.div_mod y 10 ltac:(discriminate)) as E1.
  pose proof (N.div_mod (y / 10) 10 ltac:(discriminate)) as E2.
  pose proof (N.div_mod (y / 10 / 10) 10 ltac:(discriminate)) as E3.
  rewrite !N.Div0.div_div in E3. rewrite N.Div0.div_div in E2.
  change (10 * 10 * 10)%N with 1000%N in E3.
  change (10 * 10)%N with 100%N in E2, E3.
  lia.
Qed.

(** On ISO strings the byte order is the calendar order. *)
Lemma str_date_mono (a b : date) :
  valid_date a -> valid_date b -> date_le a b ->
  String.leb (str_date a) (str_date b) = true.
Proof.
  destruct a as [ya ma da], b as [yb mb db].
  unfold valid_date, date_le, String.leb, str_date; simpl.
  intros Va Vb L.
  rewrite !digit_compare.
  change (Ascii.compare "-" "-") with Eq.
  pose proof (digits4 ya ltac:(lia)). pose proof (digits4 yb ltac:(lia)).
  pose proof (digits2 ma ltac:(lia)). pose proof (digits2 mb ltac:(lia)).
  pose proof (digits2 da ltac:(lia)). pose proof (digits2 db ltac:(lia)).
  repeat match goal with
  | |- context [N.modulo ?x 10] =>
      let d := fresh "d" in
      pose proof (N.mod_upper_bound x 10 ltac:(discriminate));
      set (d := N.modulo x 10) in *; clearbody d
  end.
  repeat match goal with
  | |- context [N.compare ?x ?y] => destruct (N.compare_spec x y)
  end; try reflexivity; exfalso; lia.
Qed.

Lemma string_leb_refl (s : string) : String.leb s s = true.
Proof.
  unfold String.leb.
  replace (String.compare s s) with Eq; [reflexivity|].
  induction s as [|c s IH]; simpl; [reflexivity|].
  unfold Ascii.compare. now rewrite N.compare_refl.
Qed.

Lemma by_date_at_ends (inp : Inputs) (r : PitchRecord) :
  valid_date (start_date inp) -> valid_date (end_date inp) ->
  date_le (start_date inp) (end_date inp) ->
  game_date r = Some (str_date (start_date inp))
  \/ game_date r = Some (str_date (end_date inp)) ->
  by_date inp r = Some true.
Proof.
  intros Vs Ve L [E|E]; unfold by_date; rewrite E; simpl;
    rewrite string_leb_refl, (str_date_mono _ _ Vs Ve L); reflexivity.
Qed.

(** C5: the date filter is inclusive at both ends: for an interval of two
    calendar dates with [start <= end], a row whose game date is the ISO
    string of [start] or of [end] stays in the frame; it also passes the
    whole chain when the other three criteria accept it. *)
Theorem date_filter_inclusive
    (inp : Inputs) (df : list PitchRecord) (r : PitchRecord) :
  valid_date (start_date inp) -> valid_date (end_date inp) ->
  date_le (start_date inp) (end_date inp) ->
  In r df ->
  game_date r = Some (str_date (start_date inp))
  \/ game_date r = Some (str_date (end_date inp)) ->
  In r (date_filter inp df)
  /\ (pitcher_name r = Some (pitcher_name_input inp) ->
      pitch_type r = Some (pitch_type_input inp) ->
      hand_ok inp r = true ->
      In r (filter_chain inp df)).
Proof.
  intros Vs Ve L I E.
  pose proof (by_date_at_ends inp r Vs Ve L E) as D.
  split.
  - unfold date_filter, Polars.filter. apply filter_In. now rewrite D.
  - intros Hn Ht Hh. rewrite filter_chain_spec. apply filter_In.
    split; [exact I|]. unfold selected, by_pitcher, by_pitch_type.
    rewrite D, Hh. simpl.
    rewrite (proj2 (eq_str_keeps _ _) Hn), (proj2 (eq_str_keeps _ _) Ht).
    reflexivity.
Qed.

Lemma date_filter_inclusive_witness :
  In (Sample.pitch "2025-12-31" "R" (Some 0.25%float) (Some 3%float)
        98.5%float)
     (date_filter Sample.season Sample.df_edges)
  /\ In (Sample.pitch "2025-01-01" "L" (Some 0.5%float) (Some 2.5%float)
           97.5%float)
        (filter_chain Sample.season Sample.df_edges).
Proof.
  assert (Vs : valid_date (start_date Sample.season))
    by (unfold valid_date; simpl; lia).
  assert (Ve : valid_date (end_date Sample.season))
    by (unfold valid_date; simpl; lia).
  assert (L : date_le (start_date Sample.season) (end_date Sample.season))
    by (unfold date_le; simpl; lia).
  split.
  - destruct (date_filter_inclusive Sample.season Sample.df_edges
                (Sample.pitch "2025-12-31" "R" (Some 0.25%float)
                   (Some 3%float) 98.5%float) Vs Ve L) as [H _].
    + simpl; auto.
    + right; reflexivity.
    + exact H.
  - destruct (date_filter_inclusive Sample.season Sample.df_edges
                (Sample.pitch "2025-01-01" "L" (Some 0.5%float)
                   (Some 2.5%float) 97.5%float) Vs Ve L) as [_ H].
    + simpl; auto.
    + left; reflexivity.
    + apply H; reflexivity.
Defined.

(** ** Binary64 facts *)

Section FloatFacts.
Local Open Scope float_scope.

Lemma add_nan_l (y : float) : nan + y = nan.
Proof. apply Prim2SF_inj. rewrite add_spec. reflexivity. Qed.

Lemma add_nan_r (x : float) : x + nan = nan.
Proof.
  apply Prim2SF_inj. rewrite add_spec.
  change (Prim2SF nan) with S754_nan. now destruct (Prim2SF x).
Qed.

Lemma sub_nan_l (y : float) : nan - y = nan.
Proof. apply Prim2SF_inj. rewrite sub_spec. reflexivity. Qed.

Lemma mul_nan_l (y : float) : nan * y = nan.
Proof. apply Prim2SF_inj. rewrite mul_spec. reflexivity. Qed.

Lemma mul_nan_r (x : float) : x * nan = nan.
Proof.
  apply Prim2SF_inj. rewrite mul_spec.
  change (Prim2SF nan) with S754_nan. now destruct (Prim2SF x).
Qed.

Lemma div_nan_l (y : float) : nan / y = nan.
Proof. apply Prim2SF_inj. rewrite div_spec. reflexivity. Qed.

Lemma div_nan_r (x : float) : x / nan = nan.
Proof.
  apply Prim2SF_inj. rewrite div_spec.
  change (Prim2SF nan) with S754_nan. now destruct (Prim2SF x).
Qed.

(** The square root of a number below zero is not a number. *)
Lemma sqrt_negative (x : float) :
  PrimFloat.ltb x 0 = true -> PrimFloat.sqrt x = nan.
Proof.
  rewrite ltb_spec. intros H. apply Prim2SF_inj. rewrite sqrt_spec.
  change (Prim2SF 0) with (S754_zero false) in H.
  change (Prim2SF nan) with S754_nan.
  destruct (Prim2SF x) as [s|s| |s m e]; try destruct s;
    try discriminate H; reflexivity.
Qed.

Lemma zero_add (x : float) : x <> neg_zero -> 0 + x = x.
Proof.
  intros H. apply Prim2SF_inj. rewrite add_spec.
  change (Prim2SF 0) with (S754_zero false).
  destruct (Prim2SF x) as [s|s| |s m e] eqn:E; try reflexivity.
  destruct s; [|reflexivity].
  exfalso. apply H. apply Prim2SF_inj. rewrite E. reflexivity.
Qed.

Lemma div_eucl_mul (a b : Z) :
  (0 < b)%Z -> Z.div_eucl (a * b) b = (a, 0%Z).
Proof.
  intros P.
  assert (N : b <> 0%Z) by (intros ->; discriminate P).
  pose proof (Z.div_mul a b N) as Q. pose proof (Z.mod_mul a b N) as R.
  unfold Z.div, Z.modulo in Q, R.
  destruct (Z.div_eucl _ _) as [q r]. now subst.
Qed.

Lemma shr_fexp_canonical (m : positive) (e : Z) :
  fexp prec emax (Z.pos (digits2_pos m) + e) = e ->
  shr_fexp prec emax (Z.pos m) e loc_Exact
  = ({| shr_m := Z.pos m; shr_r := false; shr_s := false |}, e).
Proof.
  intros H. unfold shr_fexp, Zdigits2. rewrite H, Z.sub_diag. reflexivity.
Qed.

(** Rounding a mantissa that is already in canonical position changes
    nothing. *)
Lemma binary_round_aux_canonical (s : bool) (m : positive) (e : Z) :
  bounded prec emax m e = true ->
  binary_round_aux prec emax s (Z.pos m) e loc_Exact = S754_finite s m e.
Proof.
  intros V. apply andb_prop in V. destruct V as [C B].
  apply Z.eqb_eq in C.
  unfold binary_round_aux. rewrite (shr_fexp_canonical m e C).
  cbn [shr_m loc_of_shr_record round_nearest_even].
  rewrite (shr_fexp_canonical m e C). cbn [shr_m]. now rewrite B.
Qed.

Lemma shr_fexp_double (m : positive) (e : Z) :
  fexp prec emax (Z.pos (digits2_pos m) + e) = e ->
  shr_fexp prec emax (Z.pos m~0) (e - 1) loc_Exact
  = ({| shr_m := Z.pos m; shr_r := false; shr_s := false |}, e).
Proof.
  intros H. unfold shr_fexp, Zdigits2. cbn [digits2_pos].
  rewrite Pos2Z.inj_succ.
  replace (Z.succ (Z.pos (digits2_pos m)) + (e - 1))%Z
    with (Z.pos (digits2_pos m) + e)%Z by lia.
  rewrite H. replace (e - (e - 1))%Z with 1%Z by lia.
  cbn [shr shr_record_of_loc iter_pos shr_1 orb]. f_equal. lia.
Qed.

Lemma binary_round_aux_double (s : bool) (m : positive) (e : Z) :
  bounded prec emax m e = true ->
  binary_round_aux prec emax s (Z.pos m~0) (e - 1) loc_Exact
  = S754_finite s m e.
Proof.
  intros V. apply andb_prop in V. destruct V as [C B].
  apply Z.eqb_eq in C.
  unfold binary_round_aux. rewrite (shr_fexp_double m e C).
  cbn [shr_m loc_of_shr_record round_nearest_even].
  rewrite (shr_fexp_canonical m e C). cbn [shr_m]. now rewrite B.
Qed.

Lemma SFdiv_core_one (m : positive) (e : Z) :
  bounded prec emax m e = true ->
  SFdiv_core_binary prec emax (Z.pos m) e 4503599627370496 (-52)
  = (Z.pos m, e, loc_Exact)
  \/ SFdiv_core_binary prec emax (Z.pos m) e 4503599627370496 (-52)
     = (Z.pos m~0, (e - 1)%Z, loc_Exact).
Proof.
  intros V. apply andb_prop in V. destruct V as [C B].
  apply Z.eqb_eq in C. unfold fexp, SpecFloat.emin in C.
  unfold SFdiv_core_binary.
  change (Zdigits2 4503599627370496) with 53%Z.
  unfold Zdigits2, fexp, SpecFloat.emin.
  change prec with 53%Z in *. change emax with 1024%Z in *.
  set (d := Z.pos (digits2_pos m)) in *.
  destruct (Z.eq_dec (Z.max (d + e - (53 + -52) - 53) (3 - 1024 - 53)) e)
    as [E|E].
  - left.
    replace (Z.min (Z.max (d + e - (53 + -52) - 53) (3 - 1024 - 53))
               (e - -52)) with e by lia.
    replace (e - -52 - e)%Z with 52%Z by lia.
    rewrite Z.shiftl_mul_pow2 by lia.
    change (2 ^ 52)%Z with 4503599627370496%Z.
    rewrite div_eucl_mul by lia. reflexivity.
  - right.
    replace (Z.min (Z.max (d + e - (53 + -52) - 53) (3 - 1024 - 53))
               (e - -52)) with (e - 1)%Z by lia.
    replace (e - -52 - (e - 1))%Z with 53%Z by lia.
    rewrite Z.shiftl_mul_pow2 by lia.
    change (2 ^ 53)%Z with (2 * 4503599627370496)%Z.
    rewrite Z.mul_assoc, div_eucl_mul by lia.
    replace (Z.pos m * 2)%Z with (Z.pos m~0) by lia. reflexivity.
Qed.

(** Dividing by one is exact, for every binary64 number. *)
Lemma div_one (x : float) : x / 1 = x.
Proof.
  apply Prim2SF_inj. rewrite div_spec.
  pose proof (Prim2SF_valid x) as V.
  change (Prim2SF 1) with (S754_finite false 4503599627370496 (-52)).
  destruct (Prim2SF x) as [s|s| |s m e];
    try (destruct s; reflexivity); try reflexivity.
  unfold SF64div, SFdiv. simpl in V. rewrite xorb_false_r.
  destruct (SFdiv_core_one m e V) as [-> | ->].
  - now apply binary_round_aux_canonical.
  - now apply binary_round_aux_double.
Qed.

End FloatFacts.

(** ** The mean *)

Lemma sum_nan_acc (xs : list float) : fold_left PrimFloat.add xs nan = nan.
Proof.
  induction xs as [|x xs IH]; simpl; [reflexivity|].
  now rewrite add_nan_l.
Qed.

Lemma sum_with_nan (xs : list float) (acc : float) :
  In nan xs -> fold_left PrimFloat.add xs acc = nan.
Proof.
  revert acc. induction xs as [|x xs IH]; simpl; intros acc H; [easy|].
  destruct H as [->|H].
  - rewrite add_nan_r. apply sum_nan_acc.
  - now apply IH.
Qed.

Lemma non_null_In (col : list (option float)) (x : float) :
  In x (non_null col) <-> In (Some x) col.
Proof.
  induction col as [|[y|] col IH]; simpl; rewrite ?IH;
    intuition congruence.
Qed.

Lemma non_null_all (xs : list float) : non_null (map Some xs) = xs.
Proof.
  induction xs as [|x xs IH]; simpl; congruence.
Qed.

(** A not-a-number cell makes the mean of its column not a number. *)
Lemma mean_with_nan (col : list (option float)) :
  In (Some nan) col -> mean col = Some nan.
Proof.
  intros H. apply non_null_In in H. unfold mean.
  destruct (non_null col) as [|x xs] eqn:E; [easy|].
  unfold sum. now rewrite (sum_with_nan _ _ H), div_nan_l.
Qed.

Lemma mean_single (c : option float) :
  c <> Some neg_zero -> mean [c] = c.
Proof.
  destruct c as [x|]; [|reflexivity].
  intros H. unfold mean, sum. simpl.
  change (of_nat 1) with 1%float.
  rewrite zero_add, div_one; [reflexivity|].
  intros ->. now apply H.
Qed.



Lemma mean_round1_single (lib : NumLib) (c : option float) :
  c <> Some neg_zero ->
  mean_round1 lib [c] = Polars.map1 (round lib 1) c.
Proof.
  intros H. unfold mean_round1. now rewrite mean_single.
Qed.

Lemma non_null_app (c1 c2 : list (option float)) :
  non_null (c1 ++ c2) = (non_null c1 ++ non_null c2)%list.
Proof.
  induction c1 as [|[x|] c1 IH]; simpl; congruence.
Qed.

(** A null cell is left out of the mean. *)
Lemma mean_skips_null (c1 c2 : list (option float)) :
  mean (c1 ++ None :: c2) = mean (c1 ++ c2).
Proof.
  unfold mean. now rewrite !non_null_app.
Qed.


(** ** Not-a-number in the derived column *)

Lemma vy_f_negative_radicand (r : PitchRecord) (v a : float) :
  vy0 r = Some v -> ay r = Some a ->
  PrimFloat.ltb (radicand v a) 0 = true ->
  col_vy_f r = Some nan.
Proof.
  intros Hv Ha H. unfold col_vy_f. rewrite Hv, Ha. simpl.
  fold (radicand v a). now rewrite sqrt_negative.
Qed.

(** C2, as the code has it: a row (with [vy0], [ay], [vz0] and [az] present)
    whose radicand is below zero gets not-a-number as its vertical approach
    angle; derivation and aggregation are total functions, nothing is
    raised.  Not-a-number is a value of the column and enters the
    aggregate: the mean of the VAA column is not-a-number, and the VAA
    scalar of the summary, in the polars frame and in the pandas row alike,
    is the rounding to one decimal of not-a-number, hence not-a-number
    whenever that rounding maps not-a-number to itself.  A null cell, by
    contrast, is left out of a mean. *)
Theorem negative_radicand_propagates_nan
    (lib : NumLib) (df : list PitchRecord) (r : PitchRecord)
    (v a vz az' : float) :
  arctan lib nan = nan ->
  In r df ->
  vy0 r = Some v -> ay r = Some a -> vz0 r = Some vz -> az r = Some az' ->
  PrimFloat.ltb (radicand v a) 0 = true ->
  vaa_deg (derive_row lib r) = Some nan
  /\ mean (map vaa_deg (with_columns_vaa lib df)) = Some nan
  /\ VAA (summary lib (with_columns_vaa lib df)) = Some (round lib 1 nan)
  /\ In ("VAA", round lib 1 nan) (summary_iloc0 lib (with_columns_vaa lib df))
  /\ (round lib 1 nan = nan ->
      In ("VAA", nan) (summary_iloc0 lib (with_columns_vaa lib df)))
  /\ (forall c1 c2 : list (option float),
        mean (c1 ++ None :: c2) = mean (c1 ++ c2)).
Proof.
  intros Hnan I Hv Ha Hz Haz Neg.
  assert (D : vaa_deg (derive_row lib r) = Some nan).
  { unfold derive_row. cbn [vaa_deg].
    rewrite (vy_f_negative_radicand r v a Hv Ha Neg).
    unfold col_t, col_vz_f, col_vaa_rad, col_vaa_deg.
    rewrite Hv, Ha, Hz, Haz. simpl.
    now rewrite sub_nan_l, div_nan_l, mul_nan_r, add_nan_r, div_nan_r,
      Hnan, mul_nan_l. }
  assert (M : mean (map vaa_deg (with_columns_vaa lib df)) = Some nan).
  { apply mean_with_nan. rewrite <- D. unfold with_columns_vaa.
    rewrite map_map. now apply (in_map (fun x => vaa_deg (derive_row lib x))). }
  assert (V : VAA (summary lib (with_columns_vaa lib df))
              = Some (round lib 1 nan)).
  { simpl. unfold mean_round1. now rewrite M. }
  assert (S : In ("VAA", round lib 1 nan)
                (summary_iloc0 lib (with_columns_vaa lib df))).
  { unfold summary_iloc0. cbv zeta. rewrite V. simpl. auto 6. }
  split; [exact D|]. split; [exact M|]. split; [exact V|].
  split; [exact S|]. split; [|exact mean_skips_null].
  intros Rn. now rewrite Rn in S.
Qed.

Lemma negative_radicand_propagates_nan_witness :
  vaa_deg (derive_row Sample.lib Sample.slow) = Some nan
  /\ mean (map vaa_deg (with_columns_vaa Sample.lib Sample.df_nan)) = Some nan
  /\ In ("VAA", nan)
       (summary_iloc0 Sample.lib (with_columns_vaa Sample.lib Sample.df_nan)).
Proof.
  destruct (negative_radicand_propagates_nan Sample.lib Sample.df_nan
              Sample.slow (-10)%float 20%float (-5)%float (-16)%float)
    as [D [M [_ [_ [S _]]]]]; try reflexivity.
  - simpl; auto.
  - split; [exact D|]. split; [exact M|]. apply S. reflexivity.
Defined.

(** A not-a-number row is not left out of the VAA mean: the second row of
    [Sample.df_nan] has a negative radicand, the mean of the VAA column is
    not-a-number, while the mean of the defined values is a number. *)
Lemma nan_row_excluded_counterexample :
  PrimFloat.ltb (radicand (-10)%float 20%float) 0%float = true
  /\ nth 1 Sample.vaa_nan_col None = Some nan
  /\ option_map PrimFloat.is_nan (mean Sample.vaa_nan_col) = Some true
  /\ option_map PrimFloat.is_nan (mean (skip_nan Sample.vaa_nan_col))
     = Some false
  /\ mean Sample.vaa_nan_col <> mean (skip_nan Sample.vaa_nan_col).
Proof.
  repeat split; try (vm_compute; reflexivity).
  intros E.
  assert (H : option_map PrimFloat.is_nan (mean Sample.vaa_nan_col)
              = option_map PrimFloat.is_nan
                  (mean (skip_nan Sample.vaa_nan_col)))
    by now rewrite E.
  vm_compute in H. discriminate H.
Qed.

(** ** Rounding in binary64 multiplication *)

Section Rounding.
Local Open Scope Z_scope.

Lemma shr_1_m (mrs : shr_record) :
  0 <= shr_m mrs -> shr_m (shr_1 mrs) = shr_m mrs / 2.
Proof.
  destruct mrs as [m r s]. simpl. intros H.
  destruct m as [|[p|p|]|p]; simpl; try reflexivity; try lia.
  - rewrite Pos2Z.inj_xI. apply Z.div_unique with (r := 1); lia.
  - rewrite Pos2Z.inj_xO. apply Z.div_unique with (r := 0); lia.
Qed.

(** Shifting right [p] times divides the mantissa by [2 ^ p]. *)
Lemma iter_shr_1_m (p : positive) (mrs : shr_record) :
  0 <= shr_m mrs ->
  shr_m (iter_pos shr_1 p mrs) = shr_m mrs / 2 ^ Z.pos p.
Proof.
  revert mrs. induction p as [p IH|p IH|]; intros mrs H; cbn [iter_pos].
  - assert (H1 : 0 <= shr_m (shr_1 mrs)).
    { rewrite shr_1_m by assumption. apply Z.div_pos; lia. }
    assert (H2 : 0 <= shr_m (iter_pos shr_1 p (shr_1 mrs))).
    { rewrite IH by assumption. apply Z.div_pos; lia. }
    rewrite IH, IH, shr_1_m by assumption.
    rewrite !Z.div_div by lia. f_equal.
    rewrite Pos2Z.inj_xI.
    replace (2 * Z.pos p + 1) with (Z.pos p + Z.pos p + 1) by lia.
    rewrite !Z.pow_add_r by lia. change (2 ^ 1) with 2. lia.
  - assert (H2 : 0 <= shr_m (iter_pos shr_1 p mrs)).
    { rewrite IH by assumption. apply Z.div_pos; lia. }
    rewrite IH, IH by assumption.
    rewrite !Z.div_div by lia. f_equal.
    rewrite <- Z.pow_add_r by lia. f_equal. lia.
  - rewrite shr_1_m by assumption. reflexivity.
Qed.

Lemma digits2_pos_bounds (p : positive) :
  2 ^ (Z.pos (digits2_pos p) - 1) <= Z.pos p < 2 ^ Z.pos (digits2_pos p).
Proof.
  induction p as [p IH|p IH|]; cbn [digits2_pos].
  - rewrite Pos2Z.inj_succ, Pos2Z.inj_xI.
    replace (Z.succ (Z.pos (digits2_pos p)) - 1)
      with (Z.succ (Z.pos (digits2_pos p) - 1)) by lia.
    rewrite !Z.pow_succ_r by lia.
    destruct IH as [L H]. revert L H.
    generalize (2 ^ (Z.pos (digits2_pos p) - 1)) (2 ^ Z.pos (digits2_pos p)).
    intros; lia.
  - rewrite Pos2Z.inj_succ. change (Z.pos p~0) with (2 * Z.pos p).
    replace (Z.succ (Z.pos (digits2_pos p)) - 1)
      with (Z.succ (Z.pos (digits2_pos p) - 1)) by lia.
    rewrite !Z.pow_succ_r by lia.
    destruct IH as [L H]. revert L H.
    generalize (2 ^ (Z.pos (digits2_pos p) - 1)) (2 ^ Z.pos (digits2_pos p)).
    intros; lia.
  - simpl. lia.
Qed.

Lemma digits2_pos_unique (p : positive) (k : Z) :
  2 ^ (k - 1) <= Z.pos p < 2 ^ k -> Z.pos (digits2_pos p) = k.
Proof.
  intros [L H]. pose proof (digits2_pos_bounds p) as [L' H'].
  set (d := Z.pos (digits2_pos p)) in *.
  assert (0 < d) by (unfold d; lia).
  assert (0 < k).
  { destruct (Z_lt_le_dec 0 k) as [|N]; [assumption|].
    exfalso. destruct (Z.eq_dec k 0) as [->|].
    - simpl in H. lia.
    - rewrite (Z.pow_neg_r 2 k) in H by lia. lia. }
  destruct (Z_lt_le_dec d k) as [C|C].
  - exfalso.
    assert (2 ^ d <= 2 ^ (k - 1)) by (apply Z.pow_le_mono_r; lia). lia.
  - destruct (Z_lt_le_dec k d) as [C'|C']; [|lia].
    exfalso.
    assert (2 ^ k <= 2 ^ (d - 1)) by (apply Z.pow_le_mono_r; lia). lia.
Qed.

Lemma round_nearest_even_bounds (m : Z) (l : location) :
  m <= round_nearest_even m l <= m + 1.
Proof.
  destruct l as [|[ | | ]]; simpl; try lia.
  destruct (Z.even m); lia.
Qed.

(** Rounding a mantissa that is [k] bits too long, in the normal range and
    away from a carry into the next binade: the result keeps the upper 53
    bits, possibly plus one. *)
Lemma binary_round_aux_shift (s : bool) (p k : positive) (e : Z) :
  Z.pos (digits2_pos p) = 53 + Z.pos k ->
  -1074 <= e + Z.pos k -> e + Z.pos k <= 971 ->
  Z.pos p / 2 ^ Z.pos k + 1 < 2 ^ 53 ->
  exists m2 : positive,
    binary_round_aux prec emax s (Z.pos p) e loc_Exact
    = S754_finite s m2 (e + Z.pos k)
    /\ Z.pos p / 2 ^ Z.pos k <= Z.pos m2 <= Z.pos p / 2 ^ Z.pos k + 1.
Proof.
  intros D Lo Hi C.
  pose proof (digits2_pos_bounds p) as [PL PH]. rewrite D in PL, PH.
  set (m1 := Z.pos p / 2 ^ Z.pos k) in *.
  assert (M1 : 2 ^ 52 <= m1).
  { unfold m1. apply Z.div_le_lower_bound; [lia|].
    rewrite <- Z.pow_add_r by lia.
    replace (Z.pos k + 52) with (53 + Z.pos k - 1) by lia. exact PL. }
  assert (E1 : shr_fexp prec emax (Z.pos p) e loc_Exact
               = (iter_pos shr_1 k
                    {| shr_m := Z.pos p; shr_r := false; shr_s := false |},
                  e + Z.pos k)).
  { unfold shr_fexp, Zdigits2, fexp, SpecFloat.emin. rewrite D.
    change prec with 53. change emax with 1024.
    replace (Z.max (53 + Z.pos k + e - 53) (3 - 1024 - 53) - e)
      with (Z.pos k) by lia.
    reflexivity. }
  unfold binary_round_aux. rewrite E1.
  set (mrs := iter_pos shr_1 k _).
  assert (S1 : shr_m mrs = m1).
  { unfold mrs. rewrite iter_shr_1_m; [reflexivity|simpl; lia]. }
  rewrite S1.
  pose proof (round_nearest_even_bounds m1 (loc_of_shr_record mrs)) as R.
  set (m2z := round_nearest_even m1 (loc_of_shr_record mrs)) in *.
  destruct m2z as [|q|q] eqn:Eq; try lia.
  assert (Dq : Z.pos (digits2_pos q) = 53).
  { apply digits2_pos_unique. change (53 - 1) with 52. lia. }
  assert (E2 : shr_fexp prec emax (Z.pos q) (e + Z.pos k) loc_Exact
               = ({| shr_m := Z.pos q; shr_r := false; shr_s := false |},
                  e + Z.pos k)).
  { apply shr_fexp_canonical. unfold fexp, SpecFloat.emin. rewrite Dq.
    change prec with 53. change emax with 1024. lia. }
  rewrite E2. cbn [shr_m].
  change (emax - prec) with 971.
  rewrite (proj2 (Z.leb_le _ _) Hi).
  exists q. split; [reflexivity | lia].
Qed.

Lemma shr_m_nonneg (mrs : shr_record) (e n : Z) :
  0 <= shr_m mrs -> 0 <= shr_m (fst (shr mrs e n)).
Proof.
  intros H. destruct n as [|p|p]; simpl; try assumption.
  rewrite iter_shr_1_m by assumption. apply Z.div_pos; lia.
Qed.

Lemma shr_fexp_nonneg (m e : Z) (l : location) :
  0 <= m -> 0 <= shr_m (fst (shr_fexp prec emax m e l)).
Proof.
  intros H. unfold shr_fexp. apply shr_m_nonneg.
  destruct l as [|[ | | ]]; exact H.
Qed.

(** Rounding a mantissa that is not negative never gives not-a-number. *)
Lemma binary_round_aux_not_nan (s : bool) (m e : Z) (l : location) :
  0 <= m -> binary_round_aux prec emax s m e l <> S754_nan.
Proof.
  intros H. unfold binary_round_aux.
  pose proof (shr_fexp_nonneg m e l H) as H1.
  destruct (shr_fexp prec emax m e l) as [mrs' e']. simpl in H1.
  pose proof (round_nearest_even_bounds (shr_m mrs') (loc_of_shr_record mrs'))
    as [R _].
  pose proof (shr_fexp_nonneg _ e' loc_Exact (Z.le_trans _ _ _ H1 R)) as H2.
  destruct (shr_fexp prec emax _ e' loc_Exact) as [mrs'' e'']. simpl in H2.
  destruct (shr_m mrs'') as [|q|q]; try discriminate.
  - destruct (e'' <=? emax - prec); discriminate.
  - lia.
Qed.

Lemma sqrtrem_nonneg (n : Z) : 0 <= n -> 0 <= fst (Z.sqrtrem n).
Proof.
  intros H. pose proof (Z.sqrtrem_spec n H) as S.
  destruct (Z.sqrtrem n) as [q r]. simpl. lia.
Qed.

(** The square root of a number that is not below zero is a number. *)
Lemma sqrt_defined (x : float) :
  PrimFloat.leb 0 x = true -> PrimFloat.sqrt x <> nan.
Proof.
  rewrite leb_spec. change (Prim2SF 0) with (S754_zero false).
  intros H E. apply (f_equal Prim2SF) in E. rewrite sqrt_spec in E.
  change (Prim2SF nan) with S754_nan in E.
  destruct (Prim2SF x) as [s|s| |s m e]; try destruct s;
    try discriminate H; try discriminate E.
  unfold SF64sqrt, SFsqrt, SFsqrt_core_binary in E.
  set (m' := match e - 2 * _ with Z.pos _ => _ | 0 => _ | Z.neg _ => _ end) in E.
  assert (M : 0 <= m').
  { unfold m'. destruct (e - 2 * _); try lia.
    apply Z.shiftl_nonneg. lia. }
  pose proof (sqrtrem_nonneg m' M) as Q.
  destruct (Z.sqrtrem m') as [q r]. simpl in Q.
  revert E. apply binary_round_aux_not_nan. exact Q.
Qed.

Lemma opp_defined (x : float) : x <> nan -> PrimFloat.opp x <> nan.
Proof.
  intros H E. apply H. apply Prim2SF_inj.
  apply (f_equal Prim2SF) in E. rewrite opp_spec in E.
  change (Prim2SF nan) with S754_nan in *.
  now destruct (Prim2SF x).
Qed.

(** A binary64 number between two negative numbers of one binade has their
    sign and exponent, and a mantissa between theirs. *)
Lemma between_negatives (a : float) (mlo mhi : positive) (e : Z) :
  SFleb (S754_finite true mlo e) (Prim2SF a) = true ->
  SFleb (Prim2SF a) (S754_finite true mhi e) = true ->
  exists m : positive,
    Prim2SF a = S754_finite true m e /\ (mhi <= m <= mlo)%positive.
Proof.
  unfold SFleb, SFcompare.
  destruct (Prim2SF a) as [s|s| |s m e']; try destruct s; try discriminate.
  destruct (Z.compare_spec e e') as [E|E|E]; try discriminate.
  - subst e'. rewrite Z.compare_refl.
    change (Pos.compare_cont Eq mlo m) with (Pos.compare mlo m).
    change (Pos.compare_cont Eq m mhi) with (Pos.compare m mhi).
    intros H1 H2. exists m. split; [reflexivity|].
    destruct (Pos.compare_spec mlo m), (Pos.compare_spec m mhi);
      try discriminate; lia.
  - intros _. destruct (Z.compare_spec e' e); try discriminate; lia.
Qed.

(** Mantissa products over the arctangent bracket, and their upper 53
    bits. *)
Lemma product_range (z : Z) :
  6558496464044032 <= z <= 6558496631816192 ->
  2 ^ 105 <= z * 8063664102031864 < 2 ^ 106
  /\ 5871471364706201 <= z * 8063664102031864 / 2 ^ 53 <= 5871471514903649.
Proof.
  intros [L H].
  change (2 ^ 105) with 40564819207303340847894502572032.
  change (2 ^ 106) with 81129638414606681695789005144064.
  change (2 ^ 53) with 9007199254740992.
  split; [lia|]. split.
  - apply Z.div_le_lower_bound; lia.
  - apply Z.lt_succ_r. apply Z.div_lt_upper_bound; lia.
Qed.

(** The product of a number in the arctangent bracket with [180 / np.pi]:
    sign, exponent, and the range of the mantissa. *)
Lemma degrees_in_bracket (a : float) :
  PrimFloat.leb Reference.atan_lo a = true ->
  PrimFloat.leb a Reference.atan_hi = true ->
  exists m2 : positive,
    Prim2SF (PrimFloat.mul a (PrimFloat.div 180 Vaa.np_pi))
    = S754_finite true m2 (-50)
    /\ 5871471364706201 <= Z.pos m2 <= 5871471514903650.
Proof.
  rewrite !leb_spec.
  replace (Prim2SF Reference.atan_lo)
    with (S754_finite true 6558496631816192 (-56)) by (vm_compute; reflexivity).
  replace (Prim2SF Reference.atan_hi)
    with (S754_finite true 6558496464044032 (-56)) by (vm_compute; reflexivity).
  intros L H. destruct (between_negatives a _ _ _ L H) as [m [E [B1 B2]]].
  rewrite mul_spec, E.
  replace (Prim2SF (PrimFloat.div 180 Vaa.np_pi))
    with (S754_finite false 8063664102031864 (-47)) by (vm_compute; reflexivity).
  unfold SF64mul, SFmul. cbn [xorb].
  change (-56 + -47) with (-103).
  destruct (product_range (Z.pos m)) as [[P1 P2] [Q1 Q2]].
  { split; apply Pos2Z.pos_le_pos; assumption. }
  rewrite <- Pos2Z.inj_mul in P1, P2, Q1, Q2.
  destruct (binary_round_aux_shift true (m * 8063664102031864) 53 (-103))
    as [m2 [R [M1 M2]]].
  - apply digits2_pos_unique. exact (conj P1 P2).
  - discriminate.
  - discriminate.
  - apply Z.le_lt_trans with (5871471514903649 + 1).
    + apply Z.add_le_mono_r. exact Q2.
    + reflexivity.
  - exists m2. split; [exact R|]. split.
    + apply Z.le_trans with (1 := Q1). exact M1.
    + apply Z.le_trans with (1 := M2).
      change 5871471514903650 with (5871471514903649 + 1).
      apply Z.add_le_mono_r. exact Q2.
Qed.

End Rounding.

(** ** Real-number bounds *)

Section RealBounds.
Local Open Scope R_scope.

Lemma F2R_finite (x : float) (s : bool) (m : positive) (e : Z) :
  Prim2SF x = S754_finite s m e ->
  F2R x = IZR (cond_Zopp s (Z.pos m)) * powerRZ 2 e.
Proof. intros H. unfold F2R. now rewrite H. Qed.

Lemma sqrt_bracket (c lo hi : R) :
  0 <= lo -> lo * lo <= c -> c <= hi * hi -> 0 <= hi ->
  lo <= R_sqrt.sqrt c <= hi.
Proof.
  intros Hl H1 H2 Hh. split.
  - rewrite <- (sqrt_square lo Hl). now apply sqrt_le_1_alt.
  - rewrite <- (sqrt_square hi Hh). now apply sqrt_le_1_alt.
Qed.

(** Bounds on a quotient of two negative numbers. *)
Lemma quotient_bracket (n d nl nh dl dh : R) :
  nl <= n <= nh -> dl <= d <= dh -> nh < 0 -> dh < 0 ->
  nh / dl <= n / d <= nl / dh.
Proof.
  intros [N1 N2] [D1 D2] Hn Hd.
  assert (d < 0) by lra. assert (dl < 0) by lra.
  assert (0 < / - d) by (apply Rinv_0_lt_compat; lra).
  assert (0 < / - dl) by (apply Rinv_0_lt_compat; lra).
  assert (0 < / - dh) by (apply Rinv_0_lt_compat; lra).
  replace (n / d) with ((- n) * / (- d)) by (field; lra).
  replace (nh / dl) with ((- nh) * / (- dl)) by (field; lra).
  replace (nl / dh) with ((- nl) * / (- dh)) by (field; lra).
  assert (/ - dl <= / - d) by (apply Rinv_le_contravar; lra).
  assert (/ - d <= / - dh) by (apply Rinv_le_contravar; lra).
  split; apply Rmult_le_compat; lra.
Qed.

(** The alternating series of the arctangent brackets it on (0,1). *)
Lemma atan_series_bracket (x : R) (N : nat) :
  0 < x < 1 ->
  sum_f_R0 (tg_alt (Ratan_seq x)) (S (2 * N)) <= atan x
  <= sum_f_R0 (tg_alt (Ratan_seq x)) (2 * N).
Proof.
  intros Hx.
  assert (H01 : 0 <= x <= 1) by lra.
  rewrite atan_eq_ps_atan by assumption.
  unfold ps_atan. destruct (in_int x) as [I|I]; [|exfalso; apply I; lra].
  destruct (ps_atan_exists_1 x I) as [v Pv]. simpl.
  apply alternated_series_ineq.
  - now apply Ratan_seq_decreasing.
  - now apply Ratan_seq_converging.
  - exact Pv.
Qed.

Lemma atan_near_slope (w : R) :
  912695937 / 10^10 <= w <= 912695938 / 10^10 ->
  910174234 / 10^10 <= atan w <= 910174236 / 10^10.
Proof.
  intros [L H].
  assert (Lo : atan (912695937 / 10^10) <= atan w).
  { destruct L as [L | <-]; [left; now apply atan_increasing | right; reflexivity]. }
  assert (Hi : atan w <= atan (912695938 / 10^10)).
  { destruct H as [H | ->]; [left; now apply atan_increasing | right; reflexivity]. }
  destruct (atan_series_bracket (912695937 / 10^10) 2 ltac:(lra)) as [A _].
  destruct (atan_series_bracket (912695938 / 10^10) 2 ltac:(lra)) as [_ B].
  set (al := atan (912695937 / 10^10)) in *.
  set (ah := atan (912695938 / 10^10)) in *.
  unfold sum_f_R0, tg_alt, Ratan_seq in A, B. simpl in A, B.
  split; lra.
Qed.

Lemma PI_bounds : 314159265 / 10^8 <= PI <= 314159266 / 10^8.
Proof.
  destruct (PI_2_3_7_ineq 4) as [A B].
  set (p := PI / 4) in *.
  unfold sum_f_R0, tg_alt, PI_2_3_7_tg, Ratan_seq in A, B. simpl in A, B.
  assert (PI = 4 * p) by (unfold p; field).
  split; lra.
Qed.

(** *** The reference values *)

Lemma vy_ref_bounds :
  -1222974515952 / 10^10 <= Ref.vy_f (-130) 20 <= -1222974515951 / 10^10.
Proof.
  unfold Ref.vy_f, Ref.y0, Ref.yf.
  destruct (sqrt_bracket ((-130) ^ 2 - 2 * 20 * (50 - 17 / 12))
              (1222974515951 / 10^10) (1222974515952 / 10^10))
    as [A B]; lra.
Qed.

Lemma t_ref_bounds :
  3851274202 / 10^10 <= Ref.t (-130) 20 <= 3851274203 / 10^10.
Proof.
  unfold Ref.t. pose proof vy_ref_bounds. lra.
Qed.

Lemma vz_ref_bounds :
  -111620387240 / 10^10 <= Ref.vz_f (-130) 20 (-5) (-16)
  <= -111620387237 / 10^10.
Proof.
  unfold Ref.vz_f, Ref.t. pose proof vy_ref_bounds. lra.
Qed.

Lemma slope_ref_bounds :
  912695937 / 10^10
  <= Ref.vz_f (-130) 20 (-5) (-16) / Ref.vy_f (-130) 20
  <= 912695938 / 10^10.
Proof.
  pose proof vy_ref_bounds as V. pose proof vz_ref_bounds as Z.
  pose proof (quotient_bracket _ _ _ _ _ _ Z V ltac:(lra) ltac:(lra))
    as [A B].
  split.
  - eapply Rle_trans; [|exact A].
    apply Rmult_le_reg_r with (r := 1222974515952 / 10^10); [lra|].
    field_simplify; lra.
  - eapply Rle_trans; [exact B|].
    apply Rmult_le_reg_r with (r := 1222974515951 / 10^10); [lra|].
    field_simplify; lra.
Qed.

Lemma vaa_ref_bounds :
  -52149143 / 10^7 <= Ref.vaa_deg (-130) 20 (-5) (-16) <= -52149141 / 10^7.
Proof.
  unfold Ref.vaa_deg, Ref.vaa_rad.
  set (w := Ref.vz_f (-130) 20 (-5) (-16) / Ref.vy_f (-130) 20).
  replace (- Ref.vz_f (-130) 20 (-5) (-16) / Ref.vy_f (-130) 20)
    with (- w) by (unfold w, Rdiv; ring).
  rewrite atan_opp.
  pose proof (atan_near_slope w slope_ref_bounds) as [A1 A2].
  pose proof PI_bounds as [P1 P2].
  set (a := atan w) in *.
  assert (Pp : 0 < PI) by lra.
  assert (I1 : / (314159266 / 10^8) <= / PI)
    by (apply Rinv_le_contravar; lra).
  assert (I2 : / PI <= / (314159265 / 10^8))
    by (apply Rinv_le_contravar; lra).
  assert (Ip : 0 < / PI) by (apply Rinv_0_lt_compat; lra).
  replace (- a * 180 / PI) with (- (180 * (a * / PI)))
    by (unfold Rdiv; ring).
  assert (L : (910174234 / 10^10) * / (314159266 / 10^8) <= a * / PI)
    by (apply Rmult_le_compat; lra).
  assert (H : a * / PI <= (910174236 / 10^10) * / (314159265 / 10^8))
    by (apply Rmult_le_compat; lra).
  split; lra.
Qed.

(** *** The computed values against the reference values *)

Lemma vy_f_close :
  close (F2R (Formula.vy_f Reference.vy0 Reference.ay)) (Ref.vy_f (-130) 20).
Proof.
  rewrite (F2R_finite _ true 8605918084878956 (-46))
    by (vm_compute; reflexivity).
  change (powerRZ 2 (-46)) with (/ 2 ^ 46). cbn [cond_Zopp Z.opp].
  pose proof vy_ref_bounds. unfold close. apply Rabs_le. lra.
Qed.

Lemma t_close :
  close (F2R (Formula.t Reference.vy0 Reference.ay)) (Ref.t (-130) 20).
Proof.
  rewrite (F2R_finite _ false 6937838825182259 (-54))
    by (vm_compute; reflexivity).
  change (powerRZ 2 (-54)) with (/ 2 ^ 54). cbn [cond_Zopp].
  pose proof t_ref_bounds. unfold close. apply Rabs_le. lra.
Qed.

Lemma vz_f_close :
  close
    (F2R (Formula.vz_f Reference.vy0 Reference.ay Reference.vz0 Reference.az))
    (Ref.vz_f (-130) 20 (-5) (-16)).
Proof.
  rewrite (F2R_finite _ true 6283669179697690 (-49))
    by (vm_compute; reflexivity).
  change (powerRZ 2 (-49)) with (/ 2 ^ 49). cbn [cond_Zopp Z.opp].
  pose proof vz_ref_bounds. unfold close. apply Rabs_le. lra.
Qed.

(** Whatever the arctangent returns inside the bracket, the angle in degrees
    is within the tolerance of the reference angle. *)
Lemma vaa_deg_close (a : float) :
  PrimFloat.leb Reference.atan_lo a = true ->
  PrimFloat.leb a Reference.atan_hi = true ->
  close (F2R (PrimFloat.mul a (PrimFloat.div 180 Vaa.np_pi)))
    (Ref.vaa_deg (-130) 20 (-5) (-16)).
Proof.
  intros L H. destruct (degrees_in_bracket a L H) as [m2 [E [B1 B2]]].
  rewrite (F2R_finite _ _ _ _ E).
  change (powerRZ 2 (-50)) with (/ 2 ^ 50). cbn [cond_Zopp].
  rewrite opp_IZR.
  apply IZR_le in B1. apply IZR_le in B2.
  pose proof vaa_ref_bounds. unfold close. apply Rabs_le. lra.
Qed.

(** The bracket is sound: the arctangent of the number the slope stands for
    lies inside it, and the bracket is 2.4e-9 wide at most. *)
Lemma atan_bracket_sound :
  F2R Reference.atan_lo <= atan (F2R Reference.slope)
  <= F2R Reference.atan_hi
  /\ F2R Reference.atan_hi - F2R Reference.atan_lo <= 24 / 10 ^ 10.
Proof.
  rewrite (F2R_finite Reference.atan_lo true 6558496631816192 (-56))
    by (vm_compute; reflexivity).
  rewrite (F2R_finite Reference.atan_hi true 6558496464044032 (-56))
    by (vm_compute; reflexivity).
  rewrite (F2R_finite Reference.slope true 6576667334523907 (-56))
    by (vm_compute; reflexivity).
  change (powerRZ 2 (-56)) with (/ 2 ^ 56). cbn [cond_Zopp Z.opp].
  replace (-6576667334523907 * / 2 ^ 56)
    with (- (6576667334523907 / 2 ^ 56)) by (unfold Rdiv; ring).
  rewrite atan_opp.
  pose proof (atan_near_slope (6576667334523907 / 2 ^ 56)) as A.
  destruct A as [A1 A2]; [lra|]. lra.
Qed.

End RealBounds.

(** ** The vertical approach angle *)

(** C1: on a row whose four kinematic cells are present, the five derived
    columns hold the four-step formula in binary64 arithmetic, with
    [y0 = 50] and [yf = 17 / 12]: [vy_f] is the negative root,
    [t = (vy_f - vy0) / ay], [vz_f = vz0 + az * t], and the angle is the
    arctangent of [- vz_f / vy_f] times [180 / pi] (this holds whatever
    [ay] and the radicand are); when the radicand is not below zero, [vy_f]
    is a number.  At the reference input [vy0 = -130],
    [ay = 20], [vz0 = -5], [az = -16], the computed [vy_f], [t] and [vz_f]
    are within 1e-6 of the values of the formula over the real numbers.  So
    is the angle in degrees, once the library arctangent is accurate to
    about 1e-9 at that one argument: once it returns a binary64 number in
    the bracket [[atan_lo, atan_hi]], which holds the true arctangent of
    that argument. *)
Theorem vaa_four_step_formula
    (lib : NumLib) (r : PitchRecord) (v a vz az' : float) :
  vy0 r = Some v -> ay r = Some a -> vz0 r = Some vz -> az r = Some az' ->
  derive_row lib r
  = mkDerived r (Some (Formula.vy_f v a)) (Some (Formula.t v a))
      (Some (Formula.vz_f v a vz az'))
      (Some (Formula.vaa_rad lib v a vz az'))
      (Some (Formula.vaa_deg lib v a vz az'))
  /\ (PrimFloat.leb 0 (radicand v a) = true -> Formula.vy_f v a <> nan)
  /\ (v = Reference.vy0 -> a = Reference.ay ->
      vz = Reference.vz0 -> az' = Reference.az ->
      close (F2R (Formula.vy_f v a)) (Ref.vy_f (-130) 20)
      /\ close (F2R (Formula.t v a)) (Ref.t (-130) 20)
      /\ close (F2R (Formula.vz_f v a vz az'))
           (Ref.vz_f (-130) 20 (-5) (-16))
      /\ (F2R Reference.atan_lo <= atan (F2R Reference.slope)
          <= F2R Reference.atan_hi)%R
      /\ (PrimFloat.leb Reference.atan_lo (arctan lib Reference.slope)
          = true ->
          PrimFloat.leb (arctan lib Reference.slope) Reference.atan_hi
          = true ->
          close (F2R (Formula.vaa_deg lib v a vz az'))
            (Ref.vaa_deg (-130) 20 (-5) (-16)))).
Proof.
  intros Hv Ha Hz Haz. split; [|split].
  - unfold derive_row, col_vy_f, col_t, col_vz_f, col_vaa_rad, col_vaa_deg.
    rewrite Hv, Ha, Hz, Haz. reflexivity.
  - intros P. apply opp_defined, sqrt_defined. exact P.
  - intros -> -> -> ->.
    split; [exact vy_f_close|]. split; [exact t_close|].
    split; [exact vz_f_close|]. split; [exact (proj1 atan_bracket_sound)|].
    intros L H. unfold Formula.vaa_deg, Formula.vaa_rad.
    fold Reference.slope. now apply vaa_deg_close.
Qed.

Lemma vaa_four_step_formula_witness :
  Formula.vy_f Reference.vy0 Reference.ay <> nan
  /\ close
       (F2R (Formula.vaa_deg Sample.lib Reference.vy0 Reference.ay
               Reference.vz0 Reference.az))
       (Ref.vaa_deg (-130) 20 (-5) (-16)).
Proof.
  destruct (vaa_four_step_formula Sample.lib
              (Sample.pitch "2025-04-01" "L" (Some 0.5%float)
                 (Some 2.5%float) 97.5%float)
              Reference.vy0 Reference.ay Reference.vz0 Reference.az
              eq_refl eq_refl eq_refl eq_refl) as [_ [D H]].
  split.
  - apply D. vm_compute. reflexivity.
  - destruct (H eq_refl eq_refl eq_refl eq_refl) as [_ [_ [_ [_ C]]]].
    apply C; vm_compute; reflexivity.
Defined.

(** ** The mean against the arithmetic mean

    How far the binary64 mean of a column can be from the arithmetic mean of
    its values over the reals, from the specification of binary64
    rounding. *)

(** *** Rounding, in units of the last place *)

Section Units.
Local Open Scope Z_scope.



Lemma Zdigits2_nonneg (n : Z) : 0 <= Zdigits2 n.
Proof. destruct n; simpl; lia. Qed.





End Units.

(** *** The value of a rounded result *)

Section RealValue.
Local Open Scope R_scope.









End RealValue.

Section RoundR.
Local Open Scope R_scope.





End RoundR.

(** *** Addition and division *)

Section AddR.
Local Open Scope R_scope.




End AddR.

Section DivR.
Local Open Scope R_scope.




End DivR.

(** *** Sum, count and mean *)

Section MeanR.
Local Open Scope R_scope.










End MeanR.

(** *** The summary scalars *)

Section SummaryRow.
Local Open Scope R_scope.



End SummaryRow.


Section SampleMean.
Local Open Scope R_scope.




End SampleMean.


(** * Further properties of the script *)

(** ** More on the filter chain *)

Lemma keeps_and (a b : option bool) :
  Polars.keeps (Polars.and_ a b) = Polars.keeps a && Polars.keeps b.
Proof. destruct a as [[|]|], b as [[|]|]; reflexivity. Qed.

Lemma by_date_keeps (inp : Inputs) (r : PitchRecord) :
  Polars.keeps (by_date inp r) = true <->
  exists d, game_date r = Some d
            /\ String.leb (str_date (start_date inp)) d = true
            /\ String.leb d (str_date (end_date inp)) = true.
Proof.
  unfold by_date. rewrite keeps_and, andb_true_iff.
  destruct (game_date r) as [d|]; simpl.
  - split.
    + intros [A B]. exists d.
      destruct (String.leb (str_date (start_date inp)) d),
        (String.leb d (str_date (end_date inp))); try discriminate; auto.
    + intros [d' [E [A B]]]. inversion E; subst d'. now rewrite A, B.
  - split; [intros [A _]; discriminate | intros [d [E _]]; discriminate].
Qed.

(** X1: a row is in the filtered frame exactly when it is in the input frame,
    its pitcher name and pitch type cells hold the selected values, its game
    date is a string between the two ISO strings, and, for ["Left"] and
    ["Right"], its handedness cell holds ["L"] or ["R"].  A null in a tested
    cell drops the row. *)
Theorem filter_chain_membership
    (inp : Inputs) (df : list PitchRecord) (r : PitchRecord) :
  In r (filter_chain inp df) <->
  In r df
  /\ pitcher_name r = Some (pitcher_name_input inp)
  /\ pitch_type r = Some (pitch_type_input inp)
  /\ (exists d, game_date r = Some d
                /\ String.leb (str_date (start_date inp)) d = true
                /\ String.leb d (str_date (end_date inp)) = true)
  /\ (batter_hand_input inp = "Left" -> batter_hand r = Some "L")
  /\ (batter_hand_input inp = "Right" -> batter_hand r = Some "R").
Proof.
  rewrite filter_chain_spec, filter_In. unfold selected.
  rewrite !andb_true_iff, by_date_keeps.
  unfold by_pitcher, by_pitch_type. rewrite !eq_str_keeps.
  assert (H : hand_ok inp r = true <->
              (batter_hand_input inp = "Left" -> batter_hand r = Some "L")
              /\ (batter_hand_input inp = "Right"
                  -> batter_hand r = Some "R")).
  { unfold hand_ok, by_hand.
    destruct (String.eqb_spec (batter_hand_input inp) "Left") as [L|L].
    - rewrite eq_str_keeps. rewrite L. split.
      + intros E. split; [auto | discriminate].
      + intros [E _]. auto.
    - destruct (String.eqb_spec (batter_hand_input inp) "Right") as [R|R].
      + rewrite eq_str_keeps. split.
        * intros E. split; [contradiction | auto].
        * intros [_ E]. auto.
      + split; [intros _; split; contradiction | reflexivity]. }
  rewrite H. tauto.
Qed.

Lemma run_stages_filter (ps : list (PitchRecord -> bool))
    (df : list PitchRecord) :
  run_stages ps df = List.filter (fun r => forallb (fun p => p r) ps) df.
Proof.
  unfold run_stages. revert df.
  induction ps as [|p ps IH]; intros df; simpl.
  - induction df as [|x l IHl]; simpl; congruence.
  - rewrite IH, filter_twice. reflexivity.
Qed.

Lemma forallb_perm {A : Type} (f : A -> bool) (l1 l2 : list A) :
  Permutation l1 l2 -> forallb f l1 = forallb f l2.
Proof.
  induction 1; simpl; try congruence.
  destruct (f x), (f y); reflexivity.
Qed.

(** X2: the four filters can run in any order: every arrangement of them gives
    the frame the source order gives. *)
Theorem filters_commute
    (inp : Inputs) (ps : list (PitchRecord -> bool)) (df : list PitchRecord) :
  Permutation ps (stages inp) ->
  run_stages ps df = filter_chain inp df.
Proof.
  intros P. rewrite run_stages_filter, filter_chain_spec.
  apply filter_ext. intros r.
  rewrite (forallb_perm (fun p => p r) _ _ P).
  unfold stages, selected. simpl. now rewrite andb_true_r, !andb_assoc.
Qed.

(** X3: filtering is row by row: the filtered concatenation of two frames is
    the concatenation of the two filtered frames. *)
Theorem filter_chain_app (inp : Inputs) (df1 df2 : list PitchRecord) :
  filter_chain inp (df1 ++ df2)%list
  = (filter_chain inp df1 ++ filter_chain inp df2)%list.
Proof.
  rewrite !filter_chain_spec. apply filter_app.
Qed.

(** ** Handedness choices *)

Lemma subseq_filter_impl {A : Type} (p q : A -> bool) (l : list A) :
  (forall x, p x = true -> q x = true) ->
  subseq (List.filter p l) (List.filter q l).
Proof.
  intros H. induction l as [|x l IH]; simpl; [constructor|].
  destruct (p x) eqn:P.
  - rewrite (H x P). now constructor.
  - destruct (q x); [now constructor | exact IH].
Qed.

Lemma selected_with_hand (h : string) (inp : Inputs) (r : PitchRecord) :
  selected (with_hand h inp) r
  = Polars.keeps (by_pitcher inp r) && Polars.keeps (by_pitch_type inp r)
    && Polars.keeps (by_date inp r) && hand_ok (with_hand h inp) r.
Proof. reflexivity. Qed.

(** X4: the three handedness choices on one frame: ["Left"] and ["Right"] each
    give a subsequence of what ["Both"] gives; a row that ["Both"] keeps is
    kept by ["Left"] exactly when its handedness cell is ["L"], by ["Right"]
    exactly when it is ["R"]; no row is kept by both; and the three frames
    add up when every handedness cell is ["L"] or ["R"]. *)
Theorem hand_choices_split (inp : Inputs) (df : list PitchRecord) :
  let both := filter_chain (with_hand "Both" inp) df in
  let left := filter_chain (with_hand "Left" inp) df in
  let right := filter_chain (with_hand "Right" inp) df in
  subseq left both /\ subseq right both
  /\ (forall r, In r left <-> In r both /\ batter_hand r = Some "L")
  /\ (forall r, In r right <-> In r both /\ batter_hand r = Some "R")
  /\ (forall r, In r left -> In r right -> False)
  /\ ((forall r, In r df ->
         batter_hand r = Some "L" \/ batter_hand r = Some "R") ->
      (List.length left + List.length right = List.length both)%nat).
Proof.
  cbv zeta.
  assert (SL : forall r, selected (with_hand "Left" inp) r
                         = selected (with_hand "Both" inp) r
                           && Polars.keeps (by_hand "L" r)).
  { intros r. rewrite !selected_with_hand. unfold hand_ok. simpl.
    now rewrite andb_true_r. }
  assert (SR : forall r, selected (with_hand "Right" inp) r
                         = selected (with_hand "Both" inp) r
                           && Polars.keeps (by_hand "R" r)).
  { intros r. rewrite !selected_with_hand. unfold hand_ok. simpl.
    now rewrite andb_true_r. }
  rewrite !filter_chain_spec.
  split; [|split; [|split; [|split; [|split]]]].
  - apply subseq_filter_impl. intros r. rewrite SL, andb_true_iff. tauto.
  - apply subseq_filter_impl. intros r. rewrite SR, andb_true_iff. tauto.
  - intros r. rewrite !filter_In, SL, andb_true_iff.
    unfold by_hand. rewrite eq_str_keeps. tauto.
  - intros r. rewrite !filter_In, SR, andb_true_iff.
    unfold by_hand. rewrite eq_str_keeps. tauto.
  - intros r. rewrite !filter_In, SL, SR, !andb_true_iff.
    unfold by_hand. rewrite !eq_str_keeps.
    intros [_ [_ L]] [_ [_ R]]. rewrite L in R. discriminate.
  - intros H. induction df as [|x l IH]; simpl; [reflexivity|].
    assert (Hl : forall r, In r l ->
                   batter_hand r = Some "L" \/ batter_hand r = Some "R")
      by (intros r I; apply H; simpl; auto).
    specialize (IH Hl). rewrite SL, SR.
    destruct (selected (with_hand "Both" inp) x); simpl; [|exact IH].
    unfold by_hand.
    destruct (H x (or_introl eq_refl)) as [E|E]; rewrite E; simpl; lia.
Qed.

(** ** The date interval *)

Lemma string_leb_trans (a b c : string) :
  String.leb a b = true -> String.leb b c = true -> String.leb a c = true.
Proof.
  unfold String.leb. intros H1 H2.
  destruct (String.compare a b) eqn:E1; try discriminate;
    destruct (String.compare b c) eqn:E2; try discriminate.
  - apply String_as_OT.cmp_eq in E1, E2. subst.
    fold (String_as_OT.cmp c c).
    now rewrite (proj2 (String_as_OT.cmp_eq c c) eq_refl).
  - apply String_as_OT.cmp_eq in E1. subst. now rewrite E2.
  - apply String_as_OT.cmp_eq in E2. subst. now rewrite E1.
  - apply String_as_OT.cmp_lt in E1, E2.
    pose proof (String_as_OT.lt_trans _ _ _ E1 E2) as L.
    apply String_as_OT.cmp_lt in L. unfold String_as_OT.cmp in L.
    now rewrite L.
Qed.

(** On valid dates the byte order of the ISO strings is the calendar order,
    both ways. *)
Lemma str_date_order (a b : date) :
  valid_date a -> valid_date b ->
  (String.leb (str_date a) (str_date b) = true <-> date_le a b).
Proof.
  intros Va Vb. split; [|now apply str_date_mono].
  destruct a as [ya ma da], b as [yb mb db].
  unfold valid_date, date_le, String.leb, str_date in *; simpl in *.
  rewrite !digit_compare.
  change (Ascii.compare "-" "-") with Eq.
  pose proof (digits4 ya ltac:(lia)). pose proof (digits4 yb ltac:(lia)).
  pose proof (digits2 ma ltac:(lia)). pose proof (digits2 mb ltac:(lia)).
  pose proof (digits2 da ltac:(lia)). pose proof (digits2 db ltac:(lia)).
  repeat match goal with
  | |- context [N.modulo ?x 10] =>
      let d := fresh "d" in
      pose proof (N.mod_upper_bound x 10 ltac:(discriminate));
      set (d := N.modulo x 10) in *; clearbody d
  end.
  repeat match goal with
  | |- context [N.compare ?x ?y] => destruct (N.compare_spec x y)
  end; intros E; try discriminate E; lia.
Qed.

(** X5: the date filter is the calendar interval: a row dated with the ISO
    string of a valid date [d] passes exactly when [start <= d <= end]. *)
Theorem date_filter_exact
    (inp : Inputs) (df : list PitchRecord) (r : PitchRecord) (d : date) :
  valid_date (start_date inp) -> valid_date (end_date inp) ->
  valid_date d -> game_date r = Some (str_date d) ->
  (In r (date_filter inp df) <->
   In r df /\ date_le (start_date inp) d /\ date_le d (end_date inp)).
Proof.
  intros Vs Ve Vd G. unfold date_filter, Polars.filter.
  rewrite filter_In, by_date_keeps.
  rewrite <- (str_date_order _ _ Vs Vd), <- (str_date_order _ _ Vd Ve).
  split.
  - intros [I [d' [E [A B]]]]. rewrite G in E. inversion E; subst d'. auto.
  - intros [I [A B]]. split; [exact I|]. exists (str_date d). auto.
Qed.

(** X6: an interval that ends before it starts selects nothing, whatever the
    frame holds, and the run stops with [EmptyResult]. *)
Theorem reversed_interval_is_empty
    (lib : NumLib) (inp : Inputs) (df : list PitchRecord) :
  valid_date (start_date inp) -> valid_date (end_date inp) ->
  ~ date_le (start_date inp) (end_date inp) ->
  filter_chain inp df = []
  /\ snd (compute lib inp df) = Halt EmptyResult.
Proof.
  intros Vs Ve N.
  assert (E : filter_chain inp df = []).
  { destruct (filter_chain inp df) as [|r l] eqn:F; [reflexivity|].
    exfalso.
    assert (I : In r (filter_chain inp df)) by (rewrite F; simpl; auto).
    apply filter_chain_membership in I.
    destruct I as [_ [_ [_ [[d [_ [A B]]] _]]]].
    apply N. apply (str_date_order _ _ Vs Ve).
    exact (string_leb_trans _ _ _ A B). }
  split; [exact E|]. unfold compute. rewrite E. reflexivity.
Qed.

(** X7: widening the interval never loses a row: with [start' <= start] and
    [end <= end'], what the narrow interval keeps is a subsequence of what
    the wide one keeps. *)
Theorem wider_interval_keeps_more
    (inp : Inputs) (s' e' : date) (df : list PitchRecord) :
  valid_date (start_date inp) -> valid_date (end_date inp) ->
  valid_date s' -> valid_date e' ->
  date_le s' (start_date inp) -> date_le (end_date inp) e' ->
  subseq (filter_chain inp df) (filter_chain (with_dates s' e' inp) df).
Proof.
  intros Vs Ve Vs' Ve' Ls Le. rewrite !filter_chain_spec.
  apply subseq_filter_impl. intros r. unfold selected.
  rewrite !andb_true_iff. intros [[[A B] C] D].
  repeat split; try assumption.
  apply by_date_keeps in C. destruct C as [d [G [C1 C2]]].
  apply by_date_keeps. exists d. split; [exact G|]. simpl. split.
  - apply string_leb_trans with (2 := C1). now apply str_date_mono.
  - apply string_leb_trans with (1 := C2). now apply str_date_mono.
Qed.

(** ** Runs of the whole script *)

Lemma matching_first (inp : Inputs) (players_df : list Player) :
  In (Some (pitcher_name_input inp)) (map name players_df) ->
  exists l1 p l2,
    players_df = (l1 ++ p :: l2)%list
    /\ name p = Some (pitcher_name_input inp)
    /\ (forall q, In q l1 -> name q <> Some (pitcher_name_input inp))
    /\ hd None (map player_id (matching inp players_df)) = player_id p
    /\ Polars.is_empty (matching inp players_df) = false.
Proof.
  unfold matching, Polars.filter.
  induction players_df as [|x l IH]; simpl; [intros []|].
  intros H.
  destruct (Polars.keeps (Polars.eq_str (name x) (pitcher_name_input inp)))
    eqn:K.
  - apply eq_str_keeps in K. exists [], x, l. simpl.
    repeat split; auto.
  - assert (Nx : name x <> Some (pitcher_name_input inp)).
    { intros E. apply eq_str_keeps in E. rewrite E in K. discriminate. }
    destruct H as [H|H]; [contradiction|].
    destruct (IH H) as [l1 [p [l2 [E [Np [F [Hd Em]]]]]]].
    exists (x :: l1), p, l2. simpl. split; [now rewrite E|].
    repeat split; auto. intros q [<-|I]; auto.
Qed.

(** X8: on a roster without null names, a name taken from the roster always
    resolves: the script goes past the lookup without an error message, and
    the games it asks for are those of the first roster row that carries the
    name; lines 17-44 end with the frame fetched for that row, after the
    four scraper calls in source order. *)
Theorem roster_name_resolves
    (lib : NumLib) (Raw : Type) (scraper : MLB_Scrape Raw) (inp : Inputs) :
  (forall q, In q (get_players scraper) -> name q <> None) ->
  In (Some (pitcher_name_input inp)) (map name (get_players scraper)) ->
  exists l1 p l2,
    get_players scraper = (l1 ++ p :: l2)%list
    /\ name p = Some (pitcher_name_input inp)
    /\ (forall q, In q l1 -> name q <> Some (pitcher_name_input inp))
    /\ resolve scraper inp = ([GetPlayers], Ok (player_id p))
    /\ load scraper inp
       = ([GetPlayers; GetPlayerGamesList (player_id p);
           GetData (get_player_games_list scraper (player_id p)); GetDataDf],
          Goes_on
            (get_data_df scraper
               (get_data scraper
                  (get_player_games_list scraper (player_id p)))))
    /\ snd (script lib scraper inp) <> Halt NotFoundError
    /\ nth_error (fst (script lib scraper inp)) 1
       = Some (GetPlayerGamesList (player_id p)).
Proof.
  intros NN H.
  destruct (matching_first inp _ H) as [l1 [p [l2 [E [Np [F [Hd Em]]]]]]].
  exists l1, p, l2.
  split; [exact E|]. split; [exact Np|]. split; [exact F|].
  assert (R : resolve scraper inp = ([GetPlayers], Ok (player_id p))).
  { unfold resolve. simpl. rewrite Em, Hd. reflexivity. }
  split; [exact R|]. split; [|split].
  - unfold load. rewrite (no_null_sorts _ NN), R. reflexivity.
  - unfold script. rewrite R. unfold fetch. simpl. unfold compute.
    destruct (Polars.is_empty (filter_chain inp _)); simpl; discriminate.
  - unfold script. rewrite R. unfold fetch. simpl. unfold compute.
    destruct (Polars.is_empty (filter_chain inp _)); reflexivity.
Qed.

(** ** Null cells in the derived columns and in the mean *)

Lemma null_kinematics_null_vaa (lib : NumLib) (r : PitchRecord) :
  vy0 r = None \/ ay r = None \/ vz0 r = None \/ az r = None ->
  vaa_deg (derive_row lib r) = None.
Proof.
  unfold derive_row, col_vy_f, col_t, col_vz_f, col_vaa_rad, col_vaa_deg.
  cbn [vaa_deg].
  intros [H|[H|[H|H]]]; rewrite H;
    destruct (vy0 r), (ay r), (vz0 r), (az r); reflexivity.
Qed.

(** X10: a null cell is left out of a mean, and a row with a null among its four
    kinematic cells has a null angle: the VAA scalar of a frame is the same
    with and without such a row. *)
Theorem null_row_leaves_vaa_mean
    (lib : NumLib) (df1 df2 : list PitchRecord) (r : PitchRecord) :
  vy0 r = None \/ ay r = None \/ vz0 r = None \/ az r = None ->
  vaa_deg (derive_row lib r) = None
  /\ VAA (summary lib (with_columns_vaa lib (df1 ++ r :: df2)))
     = VAA (summary lib (with_columns_vaa lib (df1 ++ df2)))
  /\ (forall c1 c2 : list (option float),
        mean (c1 ++ None :: c2) = mean (c1 ++ c2)).
Proof.
  intros H. pose proof (null_kinematics_null_vaa lib r H) as N.
  split; [exact N|]. split; [|exact mean_skips_null].
  unfold summary, mean_round1, with_columns_vaa. cbn [VAA].
  rewrite !map_app. cbn [map]. rewrite N, mean_skips_null. reflexivity.
Qed.

(** ** The root and its sign *)

Section RootFacts.
Local Open Scope float_scope.

Lemma Prim2SF_nan_inv (x : float) : Prim2SF x = S754_nan -> x = nan.
Proof. intros H. apply Prim2SF_inj. now rewrite H. Qed.

Lemma float_cases (x : float) :
  x = nan \/ PrimFloat.ltb x 0 = true \/ PrimFloat.leb 0 x = true.
Proof.
  rewrite ltb_spec, leb_spec. change (Prim2SF 0) with (S754_zero false).
  destruct (Prim2SF x) as [s|s| |s m e] eqn:E.
  - right; right; reflexivity.
  - destruct s; [right; left | right; right]; reflexivity.
  - left. now apply Prim2SF_nan_inv.
  - destruct s; [right; left | right; right]; reflexivity.
Qed.

Lemma sqrt_nan_iff (x : float) :
  PrimFloat.sqrt x = nan <-> x = nan \/ PrimFloat.ltb x 0 = true.
Proof.
  split.
  - intros H. destruct (float_cases x) as [N|[L|G]]; auto.
    exfalso. exact (sqrt_defined x G H).
  - intros [->|L]; [reflexivity | now apply sqrt_negative].
Qed.

Lemma opp_nan_iff (x : float) : - x = nan <-> x = nan.
Proof.
  split; [|intros ->; reflexivity].
  intros H. destruct (float_cases x) as [N|_]; [exact N|].
  apply Prim2SF_nan_inv. apply (f_equal Prim2SF) in H.
  rewrite opp_spec in H. change (Prim2SF nan) with S754_nan in H.
  now destruct (Prim2SF x).
Qed.

Lemma binary_round_aux_sign (s : bool) (m e : Z) (l : location) :
  match binary_round_aux prec emax s m e l with
  | S754_zero s' | S754_infinity s' | S754_finite s' _ _ => s' = s
  | S754_nan => True
  end.
Proof.
  unfold binary_round_aux.
  destruct (shr_fexp prec emax m e l) as [mrs' e'].
  destruct (shr_fexp prec emax _ e' loc_Exact) as [mrs'' e''].
  destruct (shr_m mrs''); try reflexivity.
  destruct (e'' <=? emax - prec)%Z; reflexivity.
Qed.

(** A square root is never below zero. *)
Lemma sqrt_not_negative (x : float) :
  PrimFloat.ltb (PrimFloat.sqrt x) 0 = false.
Proof.
  rewrite ltb_spec, sqrt_spec. change (Prim2SF 0) with (S754_zero false).
  destruct (Prim2SF x) as [s|s| |s m e]; try destruct s; try reflexivity.
  unfold SF64sqrt, SFsqrt.
  destruct (SFsqrt_core_binary prec emax (Z.pos m) e) as [[mz ez] lz].
  pose proof (binary_round_aux_sign false mz ez lz) as S.
  destruct (binary_round_aux prec emax false mz ez lz) as [s|s| |s m' e'];
    try subst s; reflexivity.
Qed.

Lemma opp_not_positive (x : float) :
  PrimFloat.ltb x 0 = false -> PrimFloat.ltb 0 (- x) = false.
Proof.
  rewrite !ltb_spec, opp_spec. change (Prim2SF 0) with (S754_zero false).
  destruct (Prim2SF x) as [s|s| |s m e]; try destruct s;
    try reflexivity; try discriminate.
Qed.

End RootFacts.

(** X11: on a row with [vy0] and [ay] present, [vy_f] is not-a-number exactly
    when the radicand is below zero or is itself not-a-number. *)
Theorem vy_f_nan_iff
    (lib : NumLib) (r : PitchRecord) (v a : float) :
  vy0 r = Some v -> ay r = Some a ->
  (vy_f (derive_row lib r) = Some nan <->
   radicand v a = nan \/ PrimFloat.ltb (radicand v a) 0 = true).
Proof.
  intros Hv Ha. unfold derive_row, col_vy_f. cbn [vy_f].
  rewrite Hv, Ha. cbn [Polars.map1 Polars.map2 option_map].
  change (Vaa.pow2 v - 2 * a * (Vaa.y0 - Vaa.yf))%float
    with (radicand v a).
  split.
  - intros H. injection H as E.
    apply (proj1 (opp_nan_iff _)) in E.
    exact (proj1 (sqrt_nan_iff _) E).
  - intros H. f_equal.
    apply (proj2 (opp_nan_iff _)). exact (proj2 (sqrt_nan_iff _) H).
Qed.

(** X12: the root taken is the negative one: whatever the cells hold, [vy_f] is
    never above zero. *)
Theorem vy_f_never_positive
    (lib : NumLib) (r : PitchRecord) (f : float) :
  vy_f (derive_row lib r) = Some f -> PrimFloat.ltb 0 f = false.
Proof.
  unfold derive_row, col_vy_f. cbn [vy_f].
  destruct (vy0 r) as [v|], (ay r) as [a|]; simpl; try discriminate.
  intros E. inversion E. apply opp_not_positive, sqrt_not_negative.
Qed.

(** ** A zero acceleration *)

Section NotFinite.
Local Open Scope float_scope.

Lemma not_finite_spec (x : float) :
  not_finite x <-> SF_not_finite (Prim2SF x).
Proof.
  unfold not_finite. split.
  - intros [->|[->| ->]]; exact I.
  - destruct (Prim2SF x) as [s|s| |s m e] eqn:E; try contradiction; intros _.
    + destruct s; [right; right | right; left];
        apply Prim2SF_inj; rewrite E; reflexivity.
    + left. apply Prim2SF_inj. rewrite E. reflexivity.
Qed.

Lemma eqb_zero (a : float) :
  PrimFloat.eqb a 0 = true -> exists s, Prim2SF a = S754_zero s.
Proof.
  rewrite eqb_spec. change (Prim2SF 0) with (S754_zero false).
  destruct (Prim2SF a) as [s|s| |s m e]; try destruct s; try discriminate;
    intros _; eexists; reflexivity.
Qed.

Lemma div_by_zero (n a : float) :
  PrimFloat.eqb a 0 = true -> not_finite (n / a).
Proof.
  intros H. destruct (eqb_zero a H) as [s E].
  apply not_finite_spec. rewrite div_spec, E.
  destruct (Prim2SF n) as [s'|s'| |s' m e]; exact I.
Qed.

Lemma mul_not_finite (x y : float) : not_finite y -> not_finite (x * y).
Proof.
  rewrite !not_finite_spec, mul_spec.
  destruct (Prim2SF y) as [s|s| |s m e]; try contradiction; intros _;
    destruct (Prim2SF x) as [s'|s'| |s' m' e']; exact I.
Qed.

Lemma add_not_finite (x y : float) : not_finite y -> not_finite (x + y).
Proof.
  rewrite !not_finite_spec, add_spec.
  destruct (Prim2SF y) as [s|s| |s m e]; try contradiction; intros _;
    destruct (Prim2SF x) as [s'|s'| |s' m' e'];
    try exact I; destruct s', s; exact I.
Qed.

Lemma opp_not_finite (x : float) : not_finite x -> not_finite (- x).
Proof.
  rewrite !not_finite_spec, opp_spec.
  destruct (Prim2SF x) as [s|s| |s m e]; try contradiction; intros _; exact I.
Qed.

Lemma div_not_finite (x y : float) : not_finite x -> not_finite (x / y).
Proof.
  rewrite !not_finite_spec, div_spec.
  destruct (Prim2SF x) as [s|s| |s m e]; try contradiction; intros _;
    destruct (Prim2SF y) as [s'|s'| |s' m' e']; exact I.
Qed.

End NotFinite.

(** X13: with [ay] equal to zero (of either sign) nothing is raised: the time of
    flight is a quotient by zero, hence an infinity or not-a-number, and so
    are the final vertical velocity and the slope handed to the
    arctangent. *)
Theorem zero_ay_never_finite
    (lib : NumLib) (r : PitchRecord) (v a vz az' : float) :
  vy0 r = Some v -> ay r = Some a -> vz0 r = Some vz -> az r = Some az' ->
  PrimFloat.eqb a 0 = true ->
  exists t' z s : float,
    t (derive_row lib r) = Some t' /\ not_finite t'
    /\ vz_f (derive_row lib r) = Some z /\ not_finite z
    /\ vaa_rad (derive_row lib r) = Some (arctan lib s) /\ not_finite s.
Proof.
  intros Hv Ha Hz Haz Z.
  unfold derive_row, col_vy_f, col_t, col_vz_f, col_vaa_rad.
  cbn [t vz_f vaa_rad]. rewrite Hv, Ha, Hz, Haz.
  cbn [Polars.map1 Polars.map2 option_map].
  eexists. eexists. eexists.
  split; [reflexivity|]. split; [now apply div_by_zero|].
  split; [reflexivity|].
  split; [now apply add_not_finite, mul_not_finite, div_by_zero|].
  split; [reflexivity|].
  now apply div_not_finite, opp_not_finite, add_not_finite, mul_not_finite,
    div_by_zero.
Qed.

(** ** The roster select box *)

Lemma insert_name_perm (s : string) (l : list string) :
  Permutation (insert_name s l) (s :: l).
Proof.
  induction l as [|x l IH]; simpl; [apply Permutation_refl|].
  destruct (String.leb s x); [apply Permutation_refl|].
  apply perm_trans with (x :: s :: l); [now apply perm_skip | apply perm_swap].
Qed.

Lemma sorted_perm (l : list string) : Permutation (sorted l) l.
Proof.
  induction l as [|x l IH]; simpl; [constructor|].
  apply perm_trans with (x :: sorted l);
    [apply insert_name_perm | now apply perm_skip].
Qed.

Lemma insert_name_sorted (s : string) (l : list string) :
  StronglySorted (fun a b => String.leb a b = true) l ->
  StronglySorted (fun a b => String.leb a b = true) (insert_name s l).
Proof.
  induction 1 as [|x l Hl IH Hx]; simpl.
  - constructor; constructor.
  - destruct (String.leb s x) eqn:E.
    + constructor; [now constructor|].
      constructor; [exact E|].
      revert Hx. apply Forall_impl. intros b. now apply string_leb_trans.
    + constructor; [exact IH|].
      apply (Permutation_Forall (Permutation_sym (insert_name_perm s l))).
      constructor; [|exact Hx].
      destruct (String.leb_total s x) as [T|T]; [congruence|exact T].
Qed.

Lemma sorted_sorted (l : list string) :
  StronglySorted (fun a b => String.leb a b = true) (sorted l).
Proof.
  induction l as [|x l IH]; simpl; [constructor|].
  now apply insert_name_sorted.
Qed.

Lemma present_spec (col : list (option string)) (ns : list string) :
  present col = Some ns -> col = map Some ns.
Proof.
  revert ns. induction col as [|[s|] col IH]; simpl; intros ns H.
  - inversion H. reflexivity.
  - destruct (present col) as [l|]; [|discriminate].
    inversion H. simpl. f_equal. now apply IH.
  - discriminate.
Qed.

Lemma contains_In (x : string) (l : list string) :
  contains x l = true <-> In x l.
Proof.
  unfold contains. rewrite existsb_exists. split.
  - intros [y [I E]]. apply String.eqb_eq in E. now subst.
  - intros I. exists x. split; [exact I | apply String.eqb_refl].
Qed.

Lemma index_In (x : string) (l : list string) :
  In x l ->
  exists i, index x l = Some i /\ nth_error l i = Some x
            /\ forall j, (j < i)%nat -> nth_error l j <> Some x.
Proof.
  induction l as [|y l IH]; simpl; [intros []|]. intros H.
  destruct (String.eqb_spec y x) as [->|N].
  - exists 0%nat. repeat split; auto. intros j Hj. lia.
  - destruct H as [H|H]; [contradiction|].
    destruct (IH H) as [i [E [Nt F]]]. exists (S i). rewrite E.
    split; [reflexivity|]. split; [exact Nt|].
    intros [|j] Hj; simpl; [congruence | apply F; lia].
Qed.

Lemma player_names_perm (players_df : list Player) (ns : list string) :
  player_names players_df = Some ns ->
  Permutation (map Some ns) (map name players_df).
Proof.
  unfold player_names. intros H.
  destruct (present (map name players_df)) as [l|] eqn:P; [|discriminate].
  inversion H; subst ns. apply present_spec in P.
  rewrite P. apply Permutation_map, sorted_perm.
Qed.

(** X14: the pitcher select box, on a roster without null names: its options
    are the roster's names, each as often as the roster has it, in ascending
    byte order; when the roster is not empty the option shown first exists
    and is a roster name: the default name of line 28 if the roster lists
    it, otherwise the least name. *)
Theorem select_box_default
    (players_df : list Player) (ns : list string) :
  player_names players_df = Some ns ->
  Permutation (map Some ns) (map name players_df)
  /\ StronglySorted (fun a b => String.leb a b = true) ns
  /\ (players_df <> [] ->
      exists n, default_pitcher ns = Some n
                /\ In (Some n) (map name players_df)
                /\ (In default_name ns -> n = default_name)
                /\ (~ In default_name ns ->
                    forall m, In m ns -> String.leb n m = true)).
Proof.
  unfold player_names. intros H.
  destruct (present (map name players_df)) as [l|] eqn:P; [|discriminate].
  inversion H; subst ns; clear H.
  apply present_spec in P.
  assert (Pm : Permutation (map Some (sorted l)) (map name players_df)).
  { rewrite P. apply Permutation_map, sorted_perm. }
  split; [exact Pm|]. split; [apply sorted_sorted|].
  intros NE.
  assert (In_roster : forall n, In n (sorted l) ->
                                In (Some n) (map name players_df)).
  { intros n I. apply (Permutation_in _ Pm). now apply in_map. }
  unfold default_pitcher, default_index.
  destruct (contains default_name (sorted l)) eqn:C.
  - apply contains_In in C.
    destruct (index_In _ _ C) as [i [E [Nt _]]]. rewrite E.
    exists default_name. split; [exact Nt|]. split; [auto|].
    split; [reflexivity | contradiction].
  - assert (NI : ~ In default_name (sorted l)).
    { intros I. apply contains_In in I. congruence. }
    pose proof (sorted_sorted l) as S.
    destruct (sorted l) as [|n rest] eqn:E.
    + exfalso. apply NE.
      apply Permutation_nil in Pm.
      destruct players_df; [reflexivity|discriminate].
    + exists n. split; [reflexivity|]. split; [apply In_roster; simpl; auto|].
      split; [intros I; contradiction|].
      intros _ m [<-|I]; [apply string_leb_refl|].
      inversion S as [|? ? _ F]; subst.
      now apply (proj1 (Forall_forall _ _) F).
Qed.

(** X15: every option of the select box resolves: for a roster without null
    names, a selection taken from [player_names] never ends in
    [NotFoundError]. *)
Theorem select_box_option_resolves
    (lib : NumLib) (Raw : Type) (scraper : MLB_Scrape Raw) (inp : Inputs)
    (ns : list string) :
  player_names (get_players scraper) = Some ns ->
  In (pitcher_name_input inp) ns ->
  Polars.is_empty (matching inp (get_players scraper)) = false
  /\ snd (script lib scraper inp) <> Halt NotFoundError.
Proof.
  intros H I.
  pose proof (player_names_perm (get_players scraper) ns H) as Pm.
  assert (R : In (Some (pitcher_name_input inp))
                 (map name (get_players scraper))).
  { apply (Permutation_in _ Pm). now apply in_map. }
  destruct (matching_first inp _ R) as [l1 [p [l2 [_ [_ [_ [_ Em]]]]]]].
  split; [exact Em|].
  unfold script, resolve, fetch. simpl. rewrite Em. simpl.
  unfold compute.
  destruct (Polars.is_empty (filter_chain inp _)); simpl; discriminate.
Qed.

(** ** The statements above on the sample inputs *)

Lemma filters_commute_witness :
  run_stages (Cases.backwards Sample.season) Sample.df_edges
  = filter_chain Sample.season Sample.df_edges.
Proof.
  apply (filters_commute Sample.season (Cases.backwards Sample.season)
           Sample.df_edges).
  unfold Cases.backwards, stages.
  change (Permutation (rev (stages Sample.season)) (stages Sample.season)).
  apply Permutation_sym, Permutation_rev.
Defined.

Lemma hand_choices_split_witness :
  (List.length (filter_chain (with_hand "Left" Sample.season) Sample.df_LR)
   + List.length (filter_chain (with_hand "Right" Sample.season) Sample.df_LR)
   = List.length (filter_chain (with_hand "Both" Sample.season) Sample.df_LR))
  %nat.
Proof.
  destruct (hand_choices_split Sample.season Sample.df_LR)
    as [_ [_ [_ [_ [_ H]]]]].
  apply H. intros r [<-|[<-|[]]]; [left | right]; reflexivity.
Defined.

Lemma date_filter_exact_witness :
  In (Sample.pitch "2025-04-08" "R" None (Some 3%float) 98.5%float)
     (date_filter Cases.april Sample.df_LR).
Proof.
  apply (date_filter_exact Cases.april Sample.df_LR
           (Sample.pitch "2025-04-08" "R" None (Some 3%float) 98.5%float)
           (mkDate 2025 4 8)).
  - unfold valid_date; simpl; lia.
  - unfold valid_date; simpl; lia.
  - unfold valid_date; simpl; lia.
  - reflexivity.
  - split; [simpl; auto|]. unfold date_le; simpl. lia.
Defined.

Lemma reversed_interval_is_empty_witness :
  filter_chain Cases.reversed Sample.df_edges = []
  /\ snd (compute Sample.lib Cases.reversed Sample.df_edges)
     = Halt EmptyResult.
Proof.
  apply (reversed_interval_is_empty Sample.lib Cases.reversed Sample.df_edges).
  - unfold valid_date; simpl; lia.
  - unfold valid_date; simpl; lia.
  - unfold date_le; simpl. lia.
Defined.

Lemma wider_interval_keeps_more_witness :
  subseq (filter_chain Cases.april Sample.df_edges)
    (filter_chain
       (with_dates (mkDate 2025 1 1) (mkDate 2025 12 31) Cases.april)
       Sample.df_edges).
Proof.
  apply (wider_interval_keeps_more Cases.april (mkDate 2025 1 1)
           (mkDate 2025 12 31) Sample.df_edges);
    try (unfold valid_date; simpl; lia);
    unfold date_le; simpl; lia.
Defined.

Lemma roster_name_resolves_witness :
  resolve Sample.scraper Cases.sandy = ([GetPlayers], Ok (Some 645261%Z)).
Proof.
  destruct (roster_name_resolves Sample.lib (list Z) Sample.scraper
              Cases.sandy) as [l1 [p [l2 [E [Np [F [R _]]]]]]].
  - intros q [<-|[<-|[]]]; simpl; discriminate.
  - simpl. auto.
  - rewrite R. f_equal. f_equal.
    destruct l1 as [|a [|b l1]]; simpl in E.
    + inversion E; subst. simpl in Np. discriminate.
    + inversion E; subst. reflexivity.
    + inversion E as [[Ha Hb Hc]]. destruct l1; discriminate.
Defined.

Lemma null_row_leaves_vaa_mean_witness :
  VAA (summary Sample.lib
         (with_columns_vaa Sample.lib (Sample.df_LR ++ Cases.gap :: [])))
  = VAA (summary Sample.lib
           (with_columns_vaa Sample.lib (Sample.df_LR ++ []))).
Proof.
  apply (null_row_leaves_vaa_mean Sample.lib Sample.df_LR [] Cases.gap).
  right; left; reflexivity.
Defined.

Lemma vy_f_nan_iff_witness :
  vy_f (derive_row Sample.lib Sample.slow) = Some nan.
Proof.
  apply (vy_f_nan_iff Sample.lib Sample.slow (-10)%float 20%float
           eq_refl eq_refl).
  right. vm_compute. reflexivity.
Defined.

Lemma vy_f_never_positive_witness :
  PrimFloat.ltb 0 (Formula.vy_f Reference.vy0 Reference.ay) = false.
Proof.
  apply (vy_f_never_positive Sample.lib
           (Sample.pitch "2025-04-01" "L" (Some 0.5%float) (Some 2.5%float)
              97.5%float)).
  reflexivity.
Defined.

Lemma zero_ay_never_finite_witness :
  exists t' z s : float,
    t (derive_row Sample.lib Cases.still) = Some t' /\ not_finite t'
    /\ vz_f (derive_row Sample.lib Cases.still) = Some z /\ not_finite z
    /\ vaa_rad (derive_row Sample.lib Cases.still)
       = Some (arctan Sample.lib s)
    /\ not_finite s.
Proof.
  apply (zero_ay_never_finite Sample.lib Cases.still (-130)%float 0%float
           (-5)%float (-16)%float); reflexivity.
Defined.

Lemma select_box_default_witness :
  exists n, default_pitcher ["Eury Perez"; "Sandy Alcantara"] = Some n
            /\ In (Some n) (map name (get_players Sample.scraper)).
Proof.
  destruct (select_box_default (get_players Sample.scraper)
              ["Eury Perez"; "Sandy Alcantara"]) as [_ [_ H]].
  - reflexivity.
  - destruct H as [n [D [I _]]]; [discriminate|].
    exists n. split; assumption.
Defined.

Lemma select_box_option_resolves_witness :
  Polars.is_empty (matching Cases.sandy (get_players Sample.scraper)) = false
  /\ snd (script Sample.lib Sample.scraper Cases.sandy) <> Halt NotFoundError.
Proof.
  apply (select_box_option_resolves Sample.lib (list Z) Sample.scraper
           Cases.sandy ["Eury Perez"; "Sandy Alcantara"]).
  - reflexivity.
  - simpl. auto.
Defined.
